(** * Plugin loader: shallow embedding of src/src/targeting.js,
    src/src/experiments.js and src/src/index.js. *)

From Stdlib Require Import String Ascii ZArith Bool List QArith Qround.
From stdpp Require Import base gmap strings list.
Import ListNotations.
Open Scope string_scope.

(* ------------------------------------------------------------------ *)
(** ** JavaScript values and string helpers *)

(** Scalar context values produced by the dimension functions.  A
    dimension that threw (or is missing) yields [undefined]. *)
Inductive jsval :=
| JStr (s : string)
| JUndef.

(** [String(value)] *)
Definition js_String (v : jsval) : string :=
  match v with
  | JStr s => s
  | JUndef => "undefined"
  end.

(** [toLowerCase()], on the ASCII range. *)
Definition lower_ascii (c : ascii) : ascii :=
  let n := nat_of_ascii c in
  if (65 <=? n)%nat && (n <=? 90)%nat then ascii_of_nat (n + 32) else c.

Fixpoint toLowerCase (s : string) : string :=
  match s with
  | EmptyString => EmptyString
  | String c s' => String (lower_ascii c) (toLowerCase s')
  end.

(** [s.startsWith(pre)] *)
Definition startsWith (s pre : string) : bool := String.prefix pre s.

(** [s.includes(needle)] *)
Fixpoint includes (s needle : string) : bool :=
  String.prefix needle s ||
  match s with
  | EmptyString => false
  | String _ s' => includes s' needle
  end.

(** [arr.includes(x)] on an array of strings (strict equality). *)
Definition arr_includes (l : list string) (x : string) : bool :=
  existsb (String.eqb x) l.

(** JS truthiness of an optional string ([undefined], [null] and [""]
    are falsy). *)
Definition str_truthy (o : option string) : bool :=
  match o with
  | Some s => negb (String.eqb s "")
  | None => false
  end.

(** Lookup in a JS object used as a map, given by its keys in enumeration order. *)
Fixpoint assoc {A} (k : string) (l : list (string * A)) : option A :=
  match l with
  | [] => None
  | (k', v) :: l' => if String.eqb k k' then Some v else assoc k l'
  end.

(** The value of a decimal digit. *)
Definition digit_value (c : ascii) : option N :=
  let n := nat_of_ascii c in
  if (48 <=? n)%nat && (n <=? 57)%nat then Some (N.of_nat (n - 48)) else None.

Fixpoint decimal_value (s : string) (acc : N) : option N :=
  match s with
  | EmptyString => Some acc
  | String c s' =>
    match digit_value c with
    | Some d => decimal_value s' (acc * 10 + d)%N
    | None => None
    end
  end.

(** The array index a property key denotes, if any: the canonical decimal
    form of an integer below 2^32 - 1 ("0", "1", ..., no sign, no leading
    zero).  A JS object enumerates these keys first, in ascending order,
    and then its other string keys in insertion order. *)
Definition array_index (k : string) : option N :=
  match k with
  | EmptyString => None
  | String c rest =>
    if Ascii.eqb c "0"%char then (if String.eqb rest "" then Some 0%N else None)
    else match decimal_value k 0 with
         | Some n => if (n <? 4294967295)%N then Some n else None
         | None => None
         end
  end.

(* ------------------------------------------------------------------ *)
(** ** Targeting engine (targeting.js) *)

Module Targeting.

(** The observable behaviour of a user-supplied zero-argument [special]
    predicate: it returns [true], returns anything else, or throws. *)
Inductive special_result :=
| SRTrue
| SROther
| SRThrow.

(** An include/exclude rule object: an optional [special] function and
    the per-dimension rule arrays (in key order). *)
Record tobj := mk_tobj {
  special : option special_result;
  rules : list (string * list string)
}.

(** [typeof o.special === 'function' && o.special() === true], with a
    throw caught and treated as not [true]. *)
Definition special_true (sp : option special_result) : bool :=
  match sp with
  | Some SRTrue => true
  | _ => false
  end.

Definition empty_tobj : tobj := mk_tobj None [].

(** [matchesRule(value, rules, matchType)] *)
Definition matchesRule (value : jsval) (rules : list string) (matchType : string) : bool :=
  match rules with
  | [] => true
  | _ =>
    if arr_includes rules "all" then true
    else
      let normalizedValue := toLowerCase (js_String value) in
      if String.eqb matchType "startsWith" then
        existsb (fun rule => startsWith normalizedValue (toLowerCase rule)) rules
      else if String.eqb matchType "includes" then
        existsb (fun rule => includes normalizedValue (toLowerCase rule)) rules
      else
        existsb (fun rule => String.eqb normalizedValue (toLowerCase rule)) rules
  end.

(** [isExcluded(value, rules, matchType)] *)
Definition isExcluded (value : jsval) (rules : list string) (matchType : string) : bool :=
  match rules with
  | [] => false
  | _ =>
    let normalizedValue := toLowerCase (js_String value) in
    if String.eqb matchType "startsWith" then
      existsb (fun rule => startsWith normalizedValue (toLowerCase rule)) rules
    else if String.eqb matchType "includes" then
      existsb (fun rule => includes normalizedValue (toLowerCase rule)) rules
    else
      existsb (fun rule => String.eqb normalizedValue (toLowerCase rule)) rules
  end.

Record result := mk_result { matched : bool; reason : string }.

(** [dimensionConfig]: dimension name to its optional [matchType]. *)
Definition dimconfig := list (string * option string).

(** [const matchType = (dimensionConfig[dimension] || {}).matchType || 'exact'] *)
Definition matchTypeOf (dc : dimconfig) (dimension : string) : string :=
  match assoc dimension dc with
  | Some mt => if str_truthy mt then default "exact" mt else "exact"
  | None => "exact"
  end.

(** Rule array for a dimension when it is present and non-empty. *)
Definition nonempty_rules (o : tobj) (dimension : string) : option (list string) :=
  match assoc dimension (rules o) with
  | Some (r :: rs) => Some (r :: rs)
  | _ => None
  end.

(** Step 3: the loop over the dimensions of the context. *)
Fixpoint eval_dimensions (include exclude : tobj) (dc : dimconfig)
         (context : list (string * jsval)) : result :=
  match context with
  | [] => mk_result true "All targeting rules passed"
  | (dimension, currentValue) :: rest =>
    let matchType := matchTypeOf dc dimension in
    match nonempty_rules exclude dimension with
    | Some ex =>
      if isExcluded currentValue ex matchType
      then mk_result false ("Excluded by " ++ dimension ++ ": " ++ js_String currentValue)
      else
        match nonempty_rules include dimension with
        | Some inc =>
          if negb (matchesRule currentValue inc matchType)
          then mk_result false ("Not included by " ++ dimension ++ ": " ++ js_String currentValue)
          else eval_dimensions include exclude dc rest
        | None => eval_dimensions include exclude dc rest
        end
    | None =>
        match nonempty_rules include dimension with
        | Some inc =>
          if negb (matchesRule currentValue inc matchType)
          then mk_result false ("Not included by " ++ dimension ++ ": " ++ js_String currentValue)
          else eval_dimensions include exclude dc rest
        | None => eval_dimensions include exclude dc rest
        end
    end
  end.

(** [evaluateTargeting(include, exclude, context, dimensionConfig)].
    A [special] that throws is caught (and logged) and evaluation goes on. *)
Definition evaluateTargeting (include exclude : tobj) (context : list (string * jsval))
           (dc : dimconfig) : result :=
  if special_true (special exclude)
  then mk_result false "Excluded by special function"
  else if special_true (special include)
  then mk_result true "Included by special function"
  else eval_dimensions include exclude dc context.

(** [matchesDomain(domains, currentDomain)]; [window_host] is
    [window.location.host] (or [''] outside a browser). *)
Definition matchesDomain (domains : list string) (currentDomain : option string)
           (window_host : string) : bool :=
  match domains with
  | [] => true
  | _ =>
    let host := if str_truthy currentDomain then default "" currentDomain else window_host in
    if arr_includes domains "all" then true
    else arr_includes domains host
  end.

(** [normalizeTargetingConfig]: a missing [special] defaults to
    [() => false]. *)
Definition normalize_tobj (o : tobj) : tobj :=
  mk_tobj (match special o with None => Some SROther | s => s end) (rules o).

End Targeting.

(* ------------------------------------------------------------------ *)
(** ** Plugin descriptors (index.js, timer.js) *)

Import Targeting.

(** [createPerformanceTracker()] record. *)
Record perf := mk_perf {
  p_status : string;
  p_init : Z;
  p_requested : Z;
  p_received : Z;
  p_preload : Z;
  p_error : Z;
  p_timeout : Z;
  p_latency : Z
}.

(** [createPerformanceTracker()], [now] being the [timer()] reading. *)
Definition createPerformanceTracker (now : Z) : perf :=
  mk_perf "init" now 0 0 0 (-1) (-1) 0.

(** [calculateLatency(perf)] *)
Definition calculateLatency (now : Z) (p : perf) : Z := now - p_init p.

(** What a user hook ([preloadFn], [onloadFn], ...) does when it is
    called: it returns, or it throws. *)
Inductive hook :=
| HReturns
| HThrows (err : string).

(** The five lifecycle hooks of a descriptor. *)
Record hookset := mk_hookset {
  preloadFn : hook;
  onloadFn : hook;
  onerrorFn : hook;
  timeoutFn : hook;
  ignoreFn : hook
}.

(** The default hook [() => {}] in every position. *)
Definition no_hooks : hookset := mk_hookset HReturns HReturns HReturns HReturns HReturns.

(** The normalized plugin descriptor of [normalizePluginConfig].  The
    fields only used to build the DOM element ([id], [type], [async],
    [location], [attributes], [eventTitle], [tag]) and the alarm handle
    [timeoutProc] are left out; a hook is given by what it does when
    called (its invocations are recorded as effects). *)
Record plugin := mk_plugin {
  name : string;
  url : option string;
  active : bool;
  timeout : Z;
  domains : list string;
  consentState : list string;
  include : tobj;
  exclude : tobj;
  performance : perf;
  status : string;
  hooks : hookset
}.

Definition set_status (s : string) (p : plugin) : plugin :=
  mk_plugin (name p) (url p) (active p) (timeout p) (domains p) (consentState p)
            (include p) (exclude p) (performance p) s (hooks p).
Definition set_active (b : bool) (p : plugin) : plugin :=
  mk_plugin (name p) (url p) b (timeout p) (domains p) (consentState p)
            (include p) (exclude p) (performance p) (status p) (hooks p).
Definition set_performance (pf : perf) (p : plugin) : plugin :=
  mk_plugin (name p) (url p) (active p) (timeout p) (domains p) (consentState p)
            (include p) (exclude p) pf (status p) (hooks p).
Definition set_gates (inc exc : tobj) (doms cons : list string) (p : plugin) : plugin :=
  mk_plugin (name p) (url p) (active p) (timeout p) doms cons inc exc
            (performance p) (status p) (hooks p).
Definition set_include (inc : tobj) (p : plugin) : plugin :=
  set_gates inc (exclude p) (domains p) (consentState p) p.

(** Field updates of the performance record. *)
Definition perf_set_status (s : string) (pf : perf) : perf :=
  mk_perf s (p_init pf) (p_requested pf) (p_received pf) (p_preload pf)
          (p_error pf) (p_timeout pf) (p_latency pf).
Definition perf_set_latency (l : Z) (pf : perf) : perf :=
  mk_perf (p_status pf) (p_init pf) (p_requested pf) (p_received pf) (p_preload pf)
          (p_error pf) (p_timeout pf) l.
Definition perf_set_requested (t : Z) (pf : perf) : perf :=
  mk_perf (p_status pf) (p_init pf) t (p_received pf) (p_preload pf)
          (p_error pf) (p_timeout pf) (p_latency pf).
Definition perf_set_received (t : Z) (pf : perf) : perf :=
  mk_perf (p_status pf) (p_init pf) (p_requested pf) t (p_preload pf)
          (p_error pf) (p_timeout pf) (p_latency pf).
Definition perf_set_preload (t : Z) (pf : perf) : perf :=
  mk_perf (p_status pf) (p_init pf) (p_requested pf) (p_received pf) t
          (p_error pf) (p_timeout pf) (p_latency pf).
Definition perf_set_error (t : Z) (pf : perf) : perf :=
  mk_perf (p_status pf) (p_init pf) (p_requested pf) (p_received pf) (p_preload pf)
          t (p_timeout pf) (p_latency pf).
Definition perf_set_timeout (t : Z) (pf : perf) : perf :=
  mk_perf (p_status pf) (p_init pf) (p_requested pf) (p_received pf) (p_preload pf)
          (p_error pf) t (p_latency pf).

(* ------------------------------------------------------------------ *)
(** ** Experiment manager (experiments.js) *)

Module Experiments.

(** What a user [apply(pluginConfig)] function does: it returns normally
    or throws, in both cases after its mutations of the descriptor. *)
Inductive apply_result :=
| Returned (p : plugin)
| Threw (p : plugin).

Record experiment := mk_experiment {
  e_id : string;
  e_active : bool;
  e_testRange : Z * Z;
  e_plugin : option string;
  e_include : option tobj;
  e_exclude : option tobj;
  e_apply : plugin -> apply_result
}.

(** The manager: [getContext] is modelled by the context it returns.
    [registry] is a JS object, given by its entries in enumeration order
    (that of [Object.entries]). *)
Record manager := mk_manager {
  m_active : bool;
  m_testgroup : Z;
  m_context : list (string * jsval);
  m_dimensionConfig : dimconfig;
  m_registry : list (string * experiment);
  m_applied : list string;
  m_eligible : list string
}.

Definition set_registry (r : list (string * experiment)) (m : manager) : manager :=
  mk_manager (m_active m) (m_testgroup m) (m_context m) (m_dimensionConfig m) r
             (m_applied m) (m_eligible m).
Definition set_testgroup (tg : Z) (m : manager) : manager :=
  mk_manager (m_active m) tg (m_context m) (m_dimensionConfig m) (m_registry m)
             (m_applied m) (m_eligible m).
Definition set_lists (ap el : list string) (m : manager) : manager :=
  mk_manager (m_active m) (m_testgroup m) (m_context m) (m_dimensionConfig m)
             (m_registry m) ap el.

(** A new key with array index [n] goes after the smaller indices and
    before the larger ones and every other key. *)
Fixpoint insert_index {A} (k : string) (n : N) (v : A) (l : list (string * A)) : list (string * A) :=
  match l with
  | [] => [(k, v)]
  | (k', v') :: l' =>
    match array_index k' with
    | Some n' => if (n <? n')%N then (k, v) :: l else (k', v') :: insert_index k n v l'
    | None => (k, v) :: l
    end
  end.

(** [obj[k] = v] on an object given by its own properties in enumeration
    order: an existing key keeps its position and takes the new value; a
    new key is placed among the array indices when it is one, and
    appended otherwise. *)
Definition obj_set {A} (k : string) (v : A) (l : list (string * A)) : list (string * A) :=
  if existsb (String.eqb k) (map fst l) then
    map (fun kv => if String.eqb k kv.1 then (k, v) else kv) l
  else match array_index k with
       | Some n => insert_index k n v l
       | None => app l [(k, v)]
       end.

(** [delete registry[k]] *)
Definition obj_delete {A} (k : string) (l : list (string * A)) : list (string * A) :=
  List.filter (fun kv => negb (String.eqb k kv.1)) l.

(** The raw experiment passed to [register]. *)
Record raw_experiment := mk_raw_experiment {
  r_id : option string;
  r_active : option bool;
  r_testRange : option (Z * Z);
  r_plugin : option string;
  r_include : option tobj;
  r_exclude : option tobj;
  r_apply : option (plugin -> apply_result)
}.

(** [register(experiment)]: returns the success flag and the new state. *)
Definition register (x : raw_experiment) (m : manager) : bool * manager :=
  if negb (str_truthy (r_id x)) then (false, m)
  else
    let id := default "" (r_id x) in
    let e := mk_experiment id
               (match r_active x with Some false => false | _ => true end)
               (default (0, 99)%Z (r_testRange x))
               (if str_truthy (r_plugin x) then r_plugin x else None)
               (Some (default empty_tobj (r_include x)))
               (Some (default empty_tobj (r_exclude x)))
               (default Returned (r_apply x)) in
    (true, set_registry (obj_set id e (m_registry m)) m).

(** [unregister(id)] *)
Definition unregister (id : string) (m : manager) : manager :=
  set_registry (obj_delete id (m_registry m)) m.

(** [isInExperiment(id)] *)
Definition isInExperiment (m : manager) (id : string) : bool :=
  if negb (m_active m) then false
  else
    match assoc id (m_registry m) with
    | Some exp =>
      if negb (e_active exp) then false
      else let '(min, max) := e_testRange exp in
           (min <=? m_testgroup m)%Z && (m_testgroup m <=? max)%Z
    | None => false
    end.

(** [targetingMatches(exp)] *)
Definition targetingMatches (m : manager) (exp : experiment) : bool :=
  match e_include exp, e_exclude exp with
  | None, None => true
  | inc, exc =>
    let ninc := normalize_tobj (default empty_tobj inc) in
    let nexc := normalize_tobj (default empty_tobj exc) in
    matched (evaluateTargeting ninc nexc (m_context m) (m_dimensionConfig m))
  end.

(** [pluginName ? exp.plugin === pluginName : !exp.plugin] *)
Definition isMatch (pluginName : option string) (exp : experiment) : bool :=
  if str_truthy pluginName then
    match e_plugin exp, pluginName with
    | Some p, Some n => String.eqb p n
    | _, _ => false
    end
  else negb (str_truthy (e_plugin exp)).

(** The loop state of [apply]: the descriptor and the two lists. *)
Definition loop_state : Type := plugin * list string * list string.

(** One iteration of the [for (const [id, exp] of ...)] loop. *)
Definition apply_step (m : manager) (pluginName : option string)
           (s : loop_state) (entry : string * experiment) : loop_state :=
  let '(p, applied, eligible) := s in
  let '(id, exp) := entry in
  if e_active exp && isMatch pluginName exp then
    if targetingMatches m exp then
      if isInExperiment m id then
        match e_apply exp p with
        | Returned p' => (p', app applied [id], eligible)
        | Threw p' => (p', applied, eligible)
        end
      else (p, applied, app eligible [id])
    else (p, applied, eligible)
  else (p, applied, eligible).

Definition apply_loop (m : manager) (pluginName : option string)
           (entries : list (string * experiment)) (s : loop_state) : loop_state :=
  fold_left (apply_step m pluginName) entries s.

(** [apply(pluginName, pluginConfig)]: the new manager and descriptor. *)
Definition apply (m : manager) (pluginName : option string) (p : plugin) : manager * plugin :=
  if negb (m_active m) then (m, p)
  else
    let '(p', ap, el) := apply_loop m pluginName (m_registry m) (p, m_applied m, m_eligible m) in
    (set_lists ap el m, p').

(** The options of [new ExperimentManager(config)]; the context returned
    by [config.getContext] is given by its value. *)
Record manager_options := mk_manager_options {
  o_active : option bool;
  o_testgroup : option Z;
  o_context : option (list (string * jsval));
  o_dimensionConfig : option dimconfig
}.

(** [new ExperimentManager(config)], [random] being the value of
    [Math.random()], a number in [0, 1). *)
Definition create (o : manager_options) (random : Q) : manager :=
  mk_manager (match o_active o with Some false => false | _ => true end)
             (match o_testgroup o with
              | Some tg => tg
              | None => Qfloor (random * inject_Z 100)
              end)
             (default [] (o_context o))
             (default [] (o_dimensionConfig o))
             [] [] [].

(** [getStatus()]: testgroup and copies of the two lists. *)
Definition getStatus (m : manager) : Z * list string * list string :=
  (m_testgroup m, m_applied m, m_eligible m).

(** [getTargetingIds()]: the two [for ... of] loops pushing onto [ids]. *)
Definition getTargetingIds (m : manager) : list string :=
  let ids := fold_left (fun ids id => app ids [id ++ "_a"]) (m_applied m) [] in
  fold_left (fun ids id => app ids [id ++ "_e"]) (m_eligible m) ids.

(** [reset()] *)
Definition reset (m : manager) : manager := set_lists [] [] m.

(** [clear()] *)
Definition clear (m : manager) : manager := reset (set_registry [] m).

End Experiments.

(* ------------------------------------------------------------------ *)
(** ** The orchestrator (index.js, class PluginLoader) *)

Module Loader.

Import Experiments.

(** A dimension of [this.dimensions]: a plain value, or a function that
    returns a value or throws. *)
Inductive dimension :=
| DValue (v : jsval)
| DReturns (v : jsval)
| DThrows.

(** The raw config passed to [load] and [register]; [c_hooks] holds its
    function-valued hook properties ([preloadFn], [preload], [onloadFn],
    [onload], ...) by key. *)
Record config := mk_config {
  c_name : string;
  c_url : option string;
  c_active : option bool;
  c_timeout : option Z;
  c_domains : option (list string);
  c_consentState : option (list string);
  c_consent : option (list string);
  c_include : option tobj;
  c_exclude : option tobj;
  c_status : option string;
  c_hooks : list (string * hook)
}.

(** What the loader does to the outside world, in order: pub/sub
    publications, user hook invocations, script-tag attachment, and
    resolution or rejection of a load's promise (identified by a
    handle). *)
Inductive effect :=
| EPublish (topic : string) (reason : option string)
| EHook (plugin_name : string) (hook : string)
| EAttach (plugin_name : string) (src : string)
| EResolve (handle : nat) (st : string) (plugin_name : string)
           (reason : option string) (error : option string) (pf : perf)
| EReject (handle : nat) (error : string).

(** The mutable state.  Descriptors are objects: [w_heap] maps a
    reference to the object, [w_plugins] is [this.plugins] (name to
    reference), [w_queue] is [this.consentQueue] (descriptor reference
    and promise handle). *)
Record world := mk_world {
  w_heap : gmap nat plugin;
  w_next : nat;
  w_plugins : gmap string nat;
  w_metrics : gmap string perf;
  w_queue : list (nat * nat);
  w_experiments : option manager;
  w_trace : list effect
}.

(** The environment read during a call: constructor options, the URL
    query's override lists, the page host and the [timer()] reading. *)
Record env := mk_env {
  eventPrefix : string;
  consentCheck : list string -> bool;
  dimensions : list (string * dimension);
  dimensionConfig : dimconfig;
  url_enable : list string;
  url_disable : list string;
  host : string;
  now : Z
}.

(** How a loader action ends: with a value, or with an exception that
    propagates to its caller. *)
Inductive outcome (A : Type) :=
| Ok (x : A)
| Thrown (err : string).
Arguments Ok {A} x.
Arguments Thrown {A} err.

(** A state and exception monad over [world]; an exception keeps the
    changes made before it. *)
Definition M (A : Type) : Type := world -> outcome A * world.

Global Instance M_ret : MRet M := fun A x w => (Ok x, w).
Global Instance M_bind : MBind M := fun A B f c w =>
  let '(o, w') := c w in
  match o with
  | Ok x => f x w'
  | Thrown err => (Thrown err, w')
  end.

(** [throw err] *)
Definition throw {A} (err : string) : M A := fun w => (Thrown err, w).

(** [try { c } catch (err) { handler(err) }] *)
Definition catch {A} (c : M A) (handler : string -> M A) : M A :=
  fun w => let '(o, w') := c w in
           match o with
           | Ok x => (Ok x, w')
           | Thrown err => handler err w'
           end.

Definition modify (f : world -> world) : M unit := fun w => (Ok tt, f w).
Definition gets {A} (f : world -> A) : M A := fun w => (Ok (f w), w).

Definition upd_heap (f : gmap nat plugin -> gmap nat plugin) (w : world) : world :=
  mk_world (f (w_heap w)) (w_next w) (w_plugins w) (w_metrics w) (w_queue w)
           (w_experiments w) (w_trace w).
Definition upd_plugins (f : gmap string nat -> gmap string nat) (w : world) : world :=
  mk_world (w_heap w) (w_next w) (f (w_plugins w)) (w_metrics w) (w_queue w)
           (w_experiments w) (w_trace w).
Definition upd_metrics (f : gmap string perf -> gmap string perf) (w : world) : world :=
  mk_world (w_heap w) (w_next w) (w_plugins w) (f (w_metrics w)) (w_queue w)
           (w_experiments w) (w_trace w).
Definition upd_queue (f : list (nat * nat) -> list (nat * nat)) (w : world) : world :=
  mk_world (w_heap w) (w_next w) (w_plugins w) (w_metrics w) (f (w_queue w))
           (w_experiments w) (w_trace w).
Definition upd_experiments (o : option manager) (w : world) : world :=
  mk_world (w_heap w) (w_next w) (w_plugins w) (w_metrics w) (w_queue w) o (w_trace w).
Definition emit (ef : effect) : M unit :=
  modify (fun w => mk_world (w_heap w) (w_next w) (w_plugins w) (w_metrics w) (w_queue w)
                            (w_experiments w) (app (w_trace w) [ef])).

(** [new] object: allocate a fresh reference. *)
Definition alloc (p : plugin) : M nat :=
  fun w => (Ok (w_next w),
            mk_world (<[w_next w := p]> (w_heap w)) (S (w_next w)) (w_plugins w)
                     (w_metrics w) (w_queue w) (w_experiments w) (w_trace w)).

(** Run [k] on the object at [r] (always allocated in the program). *)
Definition with_plugin (r : nat) (k : plugin -> M unit) : M unit :=
  fun w => match w_heap w !! r with
           | Some p => k p w
           | None => (Ok tt, w)
           end.

Definition write_plugin (r : nat) (p : plugin) : M unit :=
  modify (upd_heap (insert r p)).

(** A call [plugin.<hk>(...)] of the descriptor's user hook, with no
    [try] around it: the call is recorded, and an exception thrown by the
    hook propagates. *)
Definition call_hook (p : plugin) (hk : string) (sel : hookset -> hook) : M unit :=
  emit (EHook (name p) hk) ;;
  match sel (hooks p) with
  | HReturns => mret tt
  | HThrows err => throw err
  end.

(** A callback runs as a task of its own: an exception it throws ends the
    task and is reported by the host, and goes no further; the state keeps
    what the callback did before it. *)
Definition task (c : M unit) : M unit := fun w => (Ok tt, snd (c w)).

(** The executor of [new Promise((resolve) => ...)]: an exception thrown by
    its body rejects the promise [h]. *)
Definition executor (h : nat) (body : M unit) : M unit :=
  catch body (fun err => emit (EReject h err)).

Section WithEnv.
Variable e : env.

(** [publishEvent(name, event, data)] *)
Definition publishEvent (pname event : string) (reason : option string) : M unit :=
  emit (EPublish (eventPrefix e ++ "." ++ pname ++ "." ++ event) reason).

(** [updateMetrics(plugin)] *)
Definition updateMetrics (p : plugin) : M unit :=
  modify (upd_metrics (insert (name p) (performance p))).

(** [getContext()]: a throwing dimension gives [undefined]. *)
Definition getContext : list (string * jsval) :=
  map (fun kd => (kd.1, match kd.2 with
                        | DValue v | DReturns v => v
                        | DThrows => JUndef
                        end)) (dimensions e).

(** [checkUrlOverride(name)]: (override, enabled). *)
Definition checkUrlOverride (pname : string) : bool * bool :=
  if arr_includes (url_disable e) "all" then
    if arr_includes (url_enable e) pname then (true, true) else (true, false)
  else if arr_includes (url_enable e) pname then (true, true)
  else if arr_includes (url_disable e) pname then (true, false)
  else (false, true).

(** [checkConsent(requiredStates)] *)
Definition checkConsent (requiredStates : list string) : bool :=
  match requiredStates with
  | [] => true
  | _ => if arr_includes requiredStates "all" then true else consentCheck e requiredStates
  end.

(** [config.<key> || config.<alias> || (() => {})] for a hook. *)
Definition pick_hook (c : config) (key alias : string) : hook :=
  match assoc key (c_hooks c) with
  | Some hk => hk
  | None => match assoc alias (c_hooks c) with
            | Some hk => hk
            | None => HReturns
            end
  end.

(** [normalizePluginConfig(config)] *)
Definition normalizePluginConfig (c : config) : plugin :=
  mk_plugin (c_name c) (c_url c)
            (match c_active c with Some false => false | _ => true end)
            (match c_timeout c with Some t => if (t =? 0)%Z then 3000%Z else t | None => 3000%Z end)
            (default ["all"] (c_domains c))
            (match c_consentState c, c_consent c with
             | Some s, _ => s
             | None, Some s => s
             | None, None => ["all"]
             end)
            (default empty_tobj (c_include c))
            (default empty_tobj (c_exclude c))
            (createPerformanceTracker (now e))
            (if str_truthy (c_status c) then default "" (c_status c) else "init")
            (mk_hookset (pick_hook c "preloadFn" "preload") (pick_hook c "onloadFn" "onload")
                        (pick_hook c "onerrorFn" "onerror") (pick_hook c "timeoutFn" "ontimeout")
                        (pick_hook c "ignoreFn" "onignore")).

(** [handleInactive(plugin, resolve)] *)
Definition handleInactive (r h : nat) : M unit :=
  with_plugin r (fun p =>
    let pf := performance p in
    let pf := perf_set_status "inactive" pf in
    let pf := perf_set_latency (calculateLatency (now e) pf) pf in
    let p := set_performance pf (set_status "inactive" p) in
    write_plugin r p ;;
    updateMetrics p ;;
    publishEvent (name p) "inactive" None ;;
    publishEvent (name p) "complete" None ;;
    emit (EResolve h "inactive" (name p) None None pf)).

(** [handleIgnore(plugin, reason, resolve)] *)
Definition handleIgnore (r : nat) (reason : string) (h : nat) : M unit :=
  with_plugin r (fun p =>
    let pf := performance p in
    let pf := perf_set_status "ignore" pf in
    let pf := perf_set_latency (calculateLatency (now e) pf) pf in
    let p := set_performance pf (set_status "ignore" (set_active false p)) in
    write_plugin r p ;;
    updateMetrics p ;;
    call_hook p "ignoreFn" ignoreFn ;;
    publishEvent (name p) "ignore" (Some reason) ;;
    publishEvent (name p) "complete" None ;;
    emit (EResolve h "ignore" (name p) (Some reason) None pf)).

(** [executeLoad(plugin, resolve)] up to the point where it returns: the
    timeout alarm is armed (its firing is [on_timeout] below), [preloadFn]
    is called, and the script is attached when there is a URL. *)
Definition executeLoad (r h : nat) : M unit :=
  with_plugin r (fun p =>
    let p := set_performance (perf_set_preload (now e) (performance p)) p in
    write_plugin r p ;;
    call_hook p "preloadFn" preloadFn ;;
    if str_truthy (url p) then
      let pf := perf_set_requested (now e) (perf_set_status "requested" (performance p)) in
      write_plugin r (set_performance pf (set_status "requested" p)) ;;
      emit (EAttach (name p) (default "" (url p)))
    else handleIgnore r "No URL provided" h).

(** The three callbacks [executeLoad] installs, each closing over the
    descriptor [r] and the promise handle [h]. *)
Inductive callback :=
| CbTimeout (r h : nat)
| CbLoad (r h : nat)
| CbError (r h : nat) (err : string).

(** The [setTimeout] callback. *)
Definition on_timeout (r h : nat) : M unit :=
  with_plugin r (fun p =>
    if String.eqb (status p) "requested" then
      let pf := performance p in
      let pf := perf_set_status "timeout" pf in
      let pf := perf_set_timeout (now e) pf in
      let pf := perf_set_latency (calculateLatency (now e) pf) pf in
      let p := set_performance pf (set_status "timeout" p) in
      write_plugin r p ;;
      updateMetrics p ;;
      call_hook p "timeoutFn" timeoutFn ;;
      publishEvent (name p) "timeout" None ;;
      publishEvent (name p) "complete" None ;;
      emit (EResolve h "timeout" (name p) None None pf)
    else mret tt).

(** [script.onload]; [clearTimeout] only suppresses later deliveries of
    [on_timeout], which are modelled as arbitrary below. *)
Definition on_load (r h : nat) : M unit :=
  with_plugin r (fun p =>
    if String.eqb (status p) "requested" then
      let pf := performance p in
      let pf := perf_set_status "loaded" pf in
      let pf := perf_set_received (now e) pf in
      let pf := perf_set_latency (calculateLatency (now e) pf) pf in
      let p := set_performance pf (set_status "loaded" p) in
      write_plugin r p ;;
      updateMetrics p ;;
      call_hook p "onloadFn" onloadFn ;;
      publishEvent (name p) "load" None ;;
      publishEvent (name p) "complete" None ;;
      emit (EResolve h "loaded" (name p) None None pf)
    else mret tt).

(** [script.onerror] *)
Definition on_error (r h : nat) (err : string) : M unit :=
  with_plugin r (fun p =>
    if String.eqb (status p) "requested" then
      let pf := performance p in
      let pf := perf_set_status "error" pf in
      let pf := perf_set_error (now e) pf in
      let pf := perf_set_latency (calculateLatency (now e) pf) pf in
      let p := set_performance pf (set_status "error" p) in
      write_plugin r p ;;
      updateMetrics p ;;
      call_hook p "onerrorFn" onerrorFn ;;
      publishEvent (name p) "error" None ;;
      publishEvent (name p) "complete" None ;;
      emit (EResolve h "error" (name p) None (Some err) pf)
    else mret tt).

Definition fire (cb : callback) : M unit :=
  match cb with
  | CbTimeout r h => on_timeout r h
  | CbLoad r h => on_load r h
  | CbError r h err => on_error r h err
  end.

(** The descriptor a callback closes over. *)
Definition cb_ref (cb : callback) : nat :=
  match cb with
  | CbTimeout r _ | CbLoad r _ | CbError r _ _ => r
  end.

Fixpoint fire_all (cbs : list callback) : M unit :=
  match cbs with
  | [] => mret tt
  | cb :: cbs' => task (fire cb) ;; fire_all cbs'
  end.

(** [this.experiments.apply(plugin.name, plugin)] when an experiment
    manager is set. *)
Definition applyExperiments (r : nat) : M unit :=
  with_plugin r (fun p =>
    fun w => match w_experiments w with
             | Some m =>
               let '(m', p') := Experiments.apply m (Some (name p)) p in
               (Ok tt, upd_heap (insert r p') (upd_experiments (Some m') w))
             | None => (Ok tt, w)
             end).

(** Targeting of [load] and [processConsentQueue]: the normalized
    include/exclude evaluated against a fresh context. *)
Definition targetingOf (p : plugin) : Targeting.result :=
  evaluateTargeting (normalize_tobj (include p)) (normalize_tobj (exclude p))
                    getContext (dimensionConfig e).

(** Steps 5 to 8 of [load], once consent is given. *)
Definition load_after_consent (r h : nat) : M unit :=
  with_plugin r (fun p =>
    if negb (matchesDomain (domains p) None (host e)) then handleIgnore r "Domain mismatch" h
    else
      applyExperiments r ;;
      with_plugin r (fun p =>
        let res := targetingOf p in
        if negb (matched res) then handleIgnore r (Targeting.reason res) h
        else executeLoad r h)).

(** [load(config)], line 160-161: use the stored descriptor for this
    name or a newly normalized one. *)
Definition load_select (c : config) : M nat :=
  found ← gets (fun w => w_plugins w !! c_name c);
  match found with
  | Some r => mret r
  | None => alloc (normalizePluginConfig c)
  end.

(** [load(config)], from line 161 on, for the descriptor [r]. *)
Definition load_gates (r h : nat) : M unit :=
  with_plugin r (fun p =>
    modify (upd_plugins (insert (name p) r)) ;;
    let '(override, enabled) := checkUrlOverride (name p) in
    (if override then
       if enabled then
         write_plugin r (set_gates empty_tobj empty_tobj ["all"] ["all"] p) ;;
         publishEvent (name p) "override.enabled" None
       else
         write_plugin r (set_active false p) ;;
         publishEvent (name p) "override.disabled" None
     else mret tt) ;;
    with_plugin r (fun p =>
      if negb (active p) then handleInactive r h
      else if negb (checkConsent (consentState p)) then
        modify (upd_queue (fun q => app q [(r, h)])) ;;
        publishEvent (name p) "consent.pending" None
      else load_after_consent r h)).

(** [load(config)]: the promise executor; [h] is the handle of the
    returned promise. *)
Definition load (c : config) (h : nat) : M unit :=
  executor h (r ← load_select c; load_gates r h).

(** [register(config)]: returns the reference of the stored descriptor. *)
Definition register (c : config) : M nat :=
  let p := normalizePluginConfig c in
  r ← alloc p;
  modify (upd_plugins (insert (name p) r)) ;;
  mret r.

(** One entry of the loop of [processConsentQueue]. *)
Definition process_entry (entry : nat * nat) : M unit :=
  let '(r, h) := entry in
  with_plugin r (fun p =>
    if checkConsent (consentState p) then
      let res := targetingOf p in
      if matched res && matchesDomain (domains p) None (host e) then executeLoad r h
      else handleIgnore r (if String.eqb (Targeting.reason res) "" then "Domain mismatch"
                           else Targeting.reason res) h
    else modify (upd_queue (fun q => app q [(r, h)]))).

Fixpoint process_entries (q : list (nat * nat)) : M unit :=
  match q with
  | [] => mret tt
  | entry :: q' => process_entry entry ;; process_entries q'
  end.

(** [processConsentQueue()] *)
Definition processConsentQueue : M unit :=
  queue ← gets w_queue;
  modify (upd_queue (fun _ => [])) ;;
  process_entries queue.

End WithEnv.

(** [str.split(',')] *)
Fixpoint split_comma (s : string) : list string :=
  match s with
  | EmptyString => [""]
  | String c s' =>
    match split_comma s' with
    | x :: xs => if Ascii.eqb c "," then "" :: x :: xs else String c x :: xs
    | [] => [String c ""]
    end
  end.

(** [(param || '').split(',').filter(Boolean)], [param] being the value of
    [params.get(...)] ([None] for [null]). *)
Definition parse_list (param : option string) : list string :=
  List.filter (fun s => negb (String.eqb s "")) (split_comma (default "" param)).

(** [getUrlOverrides()]: [in_browser] tells whether [window] exists, [pe]
    and [pd] are the [pluginEnable] and [pluginDisable] query values. *)
Definition getUrlOverrides (in_browser : bool) (pe pd : option string) : list string * list string :=
  if in_browser then (parse_list pe, parse_list pd) else ([], []).

(** [{ ...base, ...over }]: a new object that receives the properties of
    [base], then those of [over], in their enumeration order. *)
Definition obj_spread {A} (base over : list (string * A)) : list (string * A) :=
  fold_left (fun acc kv => obj_set kv.1 kv.2 acc) (app base over) [].

(** The options of [new PluginLoader(config)] that the loader reads. *)
Record loader_options := mk_loader_options {
  lo_dimensions : option (list (string * dimension));
  lo_eventPrefix : option string;
  lo_consentCheck : option (list string -> bool);
  lo_dimensionConfig : option dimconfig
}.

(** [new PluginLoader(config)], with the generated dimension tables, the
    query's override values, the page host and the [timer()] reading. *)
Definition make_env (generatedDimensions : list (string * dimension))
           (generatedDimensionConfig : dimconfig) (o : loader_options)
           (in_browser : bool) (pe pd : option string) (h : string) (t : Z) : env :=
  let '(enable, disable) := getUrlOverrides in_browser pe pd in
  mk_env (if str_truthy (lo_eventPrefix o) then default "" (lo_eventPrefix o) else "plugin")
         (default (fun _ => true) (lo_consentCheck o))
         (obj_spread generatedDimensions (default [] (lo_dimensions o)))
         (obj_spread generatedDimensionConfig (default [] (lo_dimensionConfig o)))
         enable disable h t.

(** The fresh loader state: no descriptors, metrics, queue or experiment
    manager. *)
Definition empty_world : world := mk_world ∅ 0 ∅ ∅ [] None [].

(** [setExperiments(experimentManager)] *)
Definition setExperiments (m : option manager) : M unit :=
  modify (upd_experiments m).

(** [getPlugin(name)] *)
Definition getPlugin (n : string) (w : world) : option plugin :=
  r ← w_plugins w !! n; w_heap w !! r.

(** [getMetrics()] *)
Definition getMetrics (w : world) : gmap string perf := w_metrics w.

End Loader.

(* ------------------------------------------------------------------ *)
(** ** Reference outcome of one [apply] entry, and sample data *)

Module Samples.
Import Experiments.


(** A descriptor as [normalizePluginConfig] builds it for
    [{name: 'a', url: 'https://x/y.js'}] at time 0. *)
Definition plugin_a : plugin :=
  mk_plugin "a" (Some "https://x/y.js") true 3000 ["all"] ["all"]
            empty_tobj empty_tobj (createPerformanceTracker 0) "init" no_hooks.

(** An experiment [apply] narrowing the include rules to section "news". *)
Definition narrow_to_news (p : plugin) : apply_result :=
  Returned (set_include (mk_tobj None [("section", ["news"])]) p).


(** An active experiment on plugin "a" covering every bucket. *)
Definition exp_on_a (eid : string) (f : plugin -> apply_result) : experiment :=
  mk_experiment eid true (0, 99)%Z (Some "a") (Some empty_tobj) (Some empty_tobj) f.

Definition manager_with (act : bool) (reg : list (string * experiment)) : manager :=
  mk_manager act 50 [("section", JStr "sport")] [] reg [] [].

(** A page on "example.com" in section "sport", at [timer()] = 5, with the
    given consent oracle answer and URL override lists. *)
Definition env_with (consent : bool) (enable disable : list string) : Loader.env :=
  Loader.mk_env "plugin" (fun _ => consent) [("section", Loader.DValue (JStr "sport"))] []
                enable disable "example.com" 5.

(** A loader holding the given descriptors, map and queue, with no metrics
    and an empty trace. *)
Definition world_with (heap : gmap nat plugin) (next : nat) (plugins : gmap string nat)
           (queue : list (nat * nat)) (exps : option manager) : Loader.world :=
  Loader.mk_world heap next plugins ∅ queue exps [].

(** Descriptor "a" waiting on consent "analytics". *)
Definition plugin_a_consent : plugin :=
  set_gates empty_tobj empty_tobj ["all"] ["analytics"] plugin_a.

(** The config [{name: 'a', url: 'https://x/y.js', active: false,
    include: {section: ['news']}, domains: ['other.com']}]. *)
Definition config_a_blocked : Loader.config :=
  Loader.mk_config "a" (Some "https://x/y.js") (Some false) None (Some ["other.com"]) None None
                   (Some (mk_tobj None [("section", ["news"])])) None None [].

(** A loader action that neither touches [this.plugins] nor creates a
    descriptor object. *)
Definition keeps_map {A} (c : Loader.M A) : Prop :=
  forall w, Loader.w_plugins (snd (c w)) = Loader.w_plugins w /\
            Loader.w_next (snd (c w)) = Loader.w_next w.

End Samples.

(* ------------------------------------------------------------------ *)
(** ** Views of the state used to state properties *)

Module Views.
Import Experiments.
Import Loader.

(** The three comparisons, as [matchesRule] and [isExcluded] share them. *)
Definition compare_with (mt : string) (nv : string) (rules : list string) : bool :=
  if String.eqb mt "startsWith" then existsb (fun rule => startsWith nv (toLowerCase rule)) rules
  else if String.eqb mt "includes" then existsb (fun rule => includes nv (toLowerCase rule)) rules
  else existsb (fun rule => String.eqb nv (toLowerCase rule)) rules.


(** An id [apply] may record: an entry of [entries] that is active,
    matches the call's plugin name and whose targeting matches. *)
Definition qualifies (m : manager) (pn : option string) (entries : list (string * experiment))
           (xid : string) : Prop :=
  exists exp, In (xid, exp) entries /\ e_active exp = true /\ isMatch pn exp = true /\
              targetingMatches m exp = true.

(** A string without a comma. *)
Definition comma_free (s : string) : Prop := forall c, In c (list_ascii_of_string s) -> c <> ","%char.

(** The promise resolutions of a trace: handle and status. *)
Definition resolutions (tr : list effect) : list (nat * string) :=
  flat_map (fun ef => match ef with EResolve h st _ _ _ _ => [(h, st)] | _ => [] end) tr.

(** The promise a callback resolves, and the status it resolves with. *)
Definition cb_handle (cb : callback) : nat :=
  match cb with CbTimeout _ h | CbLoad _ h | CbError _ h _ => h end.

Definition cb_status (cb : callback) : string :=
  match cb with CbTimeout _ _ => "timeout" | CbLoad _ _ => "loaded" | CbError _ _ _ => "error" end.

(** The hook a callback calls, and its name. *)
Definition cb_hook (cb : callback) : hookset -> hook :=
  match cb with CbTimeout _ _ => timeoutFn | CbLoad _ _ => onloadFn | CbError _ _ _ => onerrorFn end.

Definition cb_hook_name (cb : callback) : string :=
  match cb with CbTimeout _ _ => "timeoutFn" | CbLoad _ _ => "onloadFn" | CbError _ _ _ => "onerrorFn" end.

(** The pub/sub topic [`${eventPrefix}.${name}.${event}`]. *)
Definition topic (e : env) (n ev : string) : string := eventPrefix e ++ "." ++ n ++ "." ++ ev.



(** A loader action that leaves the consent queue as it is. *)
Definition queue_kept {A} (c : M A) : Prop := forall w, w_queue (snd (c w)) = w_queue w.

(** A trace that attaches no script. *)
Definition no_attach (tr : list effect) : Prop :=
  Forall (fun ef => match ef with EAttach _ _ => False | _ => True end) tr.






(** The config [{name: 'a'}]. *)
Definition config_a : config :=
  mk_config "a" None None None None None None None None None [].

(** The config [{name: 'a', preload: () => { throw new Error('boom') }}]:
    no [url], and a [preloadFn] (given through its alias) that throws. *)
Definition config_a_throwing : config :=
  mk_config "a" None None None None None None None None None [("preload", HThrows "boom")].

(** A loader where descriptor "a" (reference 0) has the given status. *)
Definition world_a (st : string) (queue : list (nat * nat)) : world :=
  Samples.world_with {[0 := set_status st Samples.plugin_a]} 1 {["a" := 0]} queue None.

End Views.

(* ================================================================== *)
(** * Properties *)

(** Sanity checks against the spec's worked examples. *)
Example startsWith_sport :
  matchesRule (JStr "sport.football") ["sport"] "startsWith" = true /\
  matchesRule (JStr "news") ["sport"] "startsWith" = false.
Proof. split; reflexivity. Qed.

Example includes_sport : matchesRule (JStr "uk-sport-news") ["sport"] "includes" = true.
Proof. reflexivity. Qed.

Example not_included_news :
  evaluateTargeting (normalize_tobj (mk_tobj None [("section", ["sport"])]))
                    (normalize_tobj empty_tobj) [("section", JStr "news")] []
  = mk_result false "Not included by section: news".
Proof. reflexivity. Qed.

Lemma arr_includes_In (l : list string) (x : string) :
  arr_includes l x = true <-> In x l.
Proof.
  unfold arr_includes. rewrite existsb_exists. split.
  - intros (y & Hy & Heq). apply String.eqb_eq in Heq. subst. exact Hy.
  - intros Hx. exists x. split; [exact Hx | apply String.eqb_refl].
Qed.

(** The dimension loop reads only the rule arrays. *)
Lemma eval_dimensions_rules (inc exc inc' exc' : tobj) dc ctx :
  rules inc = rules inc' -> rules exc = rules exc' ->
  eval_dimensions inc exc dc ctx = eval_dimensions inc' exc' dc ctx.
Proof.
  intros Hi He. induction ctx as [|[d v] ctx IH]; [reflexivity|].
  simpl. unfold nonempty_rules. rewrite Hi, He, IH. reflexivity.
Qed.

(** ** C3 *)

(** Claim C3, as stated: [isExcluded] also returns true on every rule
    list containing "all".  Refuted: exact match of "sport" against
    ["all"] is not excluded. *)
Lemma C3_isExcluded_all_counterexample :
  ~ (forall v rules mt, In "all" rules -> isExcluded v rules mt = true).
Proof.
  intros H. specialize (H (JStr "sport") ["all"] "exact" (or_introl eq_refl)).
  discriminate H.
Qed.

(** C3 (amended): a rule list containing "all", anywhere, makes
    [matchesRule] true for every value and match type and [matchesDomain]
    true for every host; [isExcluded] has no wildcard case and compares
    "all" like any other rule, so [isExcluded("sport", ["all"], "exact")]
    is false. *)
Theorem C3_wildcard_all (rules : list string) (Hall : In "all" rules) :
  (forall v mt, matchesRule v rules mt = true) /\
  (forall cur wh, matchesDomain rules cur wh = true) /\
  isExcluded (JStr "sport") ["all"] "exact" = false.
Proof.
  assert (Hinc : arr_includes rules "all" = true) by (apply arr_includes_In; exact Hall).
  split; [|split].
  - intros v mt. unfold matchesRule. destruct rules as [|r rs]; [reflexivity|].
    rewrite Hinc. reflexivity.
  - intros cur wh. unfold matchesDomain. destruct rules as [|r rs]; [reflexivity|].
    rewrite Hinc. reflexivity.
  - reflexivity.
Qed.

Lemma C3_wildcard_all_witness :
  In "all" ["news"; "all"] /\ matchesRule (JStr "x") ["news"; "all"] "includes" = true.
Proof.
  split; [simpl; auto|].
  apply (proj1 (C3_wildcard_all ["news"; "all"] ltac:(simpl; auto))).
Defined.

(** ** C5 *)

(** Claim C5, as stated, gives the reason "excluded by special function";
    the code's reason string is capitalised. *)
Lemma C5_reason_counterexample :
  Targeting.reason (evaluateTargeting empty_tobj (mk_tobj (Some SRTrue) []) [] [])
  <> "excluded by special function".
Proof. simpl. discriminate. Qed.

(** C5 (amended): [exclude.special()] returning true gives
    {matched: false, reason: "Excluded by special function"}; otherwise
    [include.special()] returning true gives {matched: true, reason:
    "Included by special function"} whatever the per-dimension rules and
    context; a [special] that throws behaves as one returning false. *)
Theorem C5_special_order (inc exc : tobj) (ctx : list (string * jsval)) (dc : dimconfig) :
  (special exc = Some SRTrue ->
   evaluateTargeting inc exc ctx dc = mk_result false "Excluded by special function") /\
  (special exc <> Some SRTrue -> special inc = Some SRTrue ->
   evaluateTargeting inc exc ctx dc = mk_result true "Included by special function") /\
  (special exc = Some SRThrow ->
   evaluateTargeting inc exc ctx dc = evaluateTargeting inc (mk_tobj (Some SROther) (rules exc)) ctx dc) /\
  (special inc = Some SRThrow ->
   evaluateTargeting inc exc ctx dc = evaluateTargeting (mk_tobj (Some SROther) (rules inc)) exc ctx dc).
Proof.
  unfold evaluateTargeting. destruct exc as [se re], inc as [si ri]; simpl.
  split; [|split; [|split]].
  - intros ->. reflexivity.
  - intros Hne ->. destruct se as [[| |]|]; try reflexivity. congruence.
  - intros ->. simpl. destruct (special_true si); [reflexivity|].
    apply eval_dimensions_rules; reflexivity.
  - intros ->. destruct (special_true se); [reflexivity|]. simpl.
    apply eval_dimensions_rules; reflexivity.
Qed.

Lemma C5_special_order_witness :
  evaluateTargeting (mk_tobj (Some SRTrue) [("section", ["sport"])]) (mk_tobj (Some SROther) [])
                    [("section", JStr "news")] []
  = mk_result true "Included by special function".
Proof.
  apply (proj1 (proj2 (C5_special_order (mk_tobj (Some SRTrue) [("section", ["sport"])])
                         (mk_tobj (Some SROther) []) [("section", JStr "news")] [])));
    simpl; congruence.
Defined.

(** ** Experiment manager *)

Section ExperimentProps.
Import Samples.
Import Experiments.


(** [isInExperiment] once the experiment is found. *)
Lemma isInExperiment_found (m : manager) (id : string) (exp : experiment) :
  m_active m = true -> assoc id (m_registry m) = Some exp -> e_active exp = true ->
  isInExperiment m id =
  ((fst (e_testRange exp) <=? m_testgroup m)%Z && (m_testgroup m <=? snd (e_testRange exp))%Z).
Proof.
  intros Ha Hr He. unfold isInExperiment. rewrite Ha, Hr, He. simpl.
  destruct (e_testRange exp). reflexivity.
Qed.

(** ** C6 *)

(** C6: [isInExperiment(id)] holds exactly when the manager is active and
    [id] names a registered active experiment whose [testRange = [min,max]]
    satisfies [min <= testgroup <= max]; the answer depends only on the
    manager's [active] flag and [testgroup] and on the experiment's
    [active] flag and [testRange], so it is the same on every call while
    those are unchanged; and [testRange = [0,24]] admits exactly the 25
    buckets 0..24 among 0..99. *)
Theorem C6_isInExperiment (m : manager) (id : string) :
  (isInExperiment m id = true <->
   m_active m = true /\
   exists exp, assoc id (m_registry m) = Some exp /\ e_active exp = true /\
               (fst (e_testRange exp) <= m_testgroup m <= snd (e_testRange exp))%Z) /\
  (forall m' : manager,
     m_active m' = m_active m -> m_testgroup m' = m_testgroup m ->
     option_map (fun x => (e_active x, e_testRange x)) (assoc id (m_registry m')) =
     option_map (fun x => (e_active x, e_testRange x)) (assoc id (m_registry m)) ->
     isInExperiment m' id = isInExperiment m id) /\
  (forall exp : experiment,
     m_active m = true -> assoc id (m_registry m) = Some exp -> e_active exp = true ->
     e_testRange exp = (0, 24)%Z ->
     List.filter (fun tg => isInExperiment (set_testgroup tg m) id) (map Z.of_nat (seq 0 100))
     = map Z.of_nat (seq 0 25)).
Proof.
  split; [|split].
  - unfold isInExperiment. split.
    + destruct (m_active m); [|discriminate]. simpl.
      destruct (assoc id (m_registry m)) as [exp|]; [|discriminate].
      destruct (e_active exp) eqn:Ea; [|discriminate]. simpl.
      destruct (e_testRange exp) as [lo hi] eqn:Er. intros H.
      apply andb_true_iff in H as [H1 H2]. apply Z.leb_le in H1, H2.
      split; [reflexivity|]. exists exp. rewrite Er. simpl. auto.
    + intros [-> (exp & -> & -> & H1 & H2)]. simpl.
      destruct (e_testRange exp) as [lo hi]. simpl in *.
      apply andb_true_iff. split; apply Z.leb_le; assumption.
  - intros m' Ha Ht Hr. unfold isInExperiment. rewrite Ha, Ht.
    destruct (assoc id (m_registry m')) as [x'|], (assoc id (m_registry m)) as [x|];
      simpl in Hr; try discriminate; [|reflexivity].
    injection Hr as Hact Hrange. rewrite Hact, Hrange. reflexivity.
  - intros exp Ha Hr He Hrange.
    rewrite (filter_ext _ (fun tg => (0 <=? tg)%Z && (tg <=? 24)%Z)).
    + vm_compute. reflexivity.
    + intros tg. rewrite (isInExperiment_found (set_testgroup tg m) id exp); try assumption.
      rewrite Hrange. reflexivity.
Qed.

(** ** Iteration of [apply] *)




End ExperimentProps.

Section ApplyClaims.
Import Samples.
Import Experiments.

(** ** C7 *)




(** ** C10 *)



End ApplyClaims.

(** ** Orchestrator *)

Section LoaderClaims.
Import Samples.
Import Loader.
Import Views.

(** Symbolic execution of the monadic code: unfold the primitives and
    read back the descriptors just written. *)
Ltac run_M :=
  repeat (unfold mbind, M_bind, mret, M_ret, write_plugin, modify, emit, call_hook, throw,
            updateMetrics, publishEvent, with_plugin, upd_heap, upd_metrics, upd_queue,
            upd_plugins, upd_experiments, gets in *; simpl in *;
          try rewrite lookup_insert_eq in *; simpl in *).

(** A callback on a descriptor that is not [requested] does nothing. *)
Lemma fire_not_requested (e : env) (w : world) (r : nat) (p : plugin) (cb : callback) :
  w_heap w !! r = Some p -> status p <> "requested" -> cb_ref cb = r ->
  fire e cb w = (Ok tt, w).
Proof.
  intros Hp Hs Hr. apply String.eqb_neq in Hs.
  destruct cb as [r' h | r' h | r' h err]; simpl in Hr; subst r';
    simpl; unfold on_timeout, on_load, on_error, with_plugin; rewrite Hp, Hs; reflexivity.
Qed.

Lemma resolutions_app (l1 l2 : list effect) :
  resolutions (app l1 l2) = app (resolutions l1) (resolutions l2).
Proof. unfold resolutions. apply flat_map_app. Qed.

(** ** C1 *)





(** ** C2 *)

(** C2 (code_bug): [processConsentQueue] does not re-run the sibling
    path of [load] from step 5 ([load_after_consent]: domain, experiments,
    targeting).  Descriptor "a" queued on consent "analytics", with an
    experiment for "a" that narrows its include to section "news", on a
    "sport" page: once consent is granted, [processConsentQueue] loads it
    (status [requested]) without applying the experiment, while the load
    path applies the experiment and ignores it.  Second, with a domain
    mismatch but passing targeting, the ignore reason it publishes is
    "All targeting rules passed" rather than "Domain mismatch". *)
Theorem C2_consent_queue_skips_experiments :
  let e0 := env_with true [] [] in
  let m := manager_with true [("exp1", exp_on_a "exp1" narrow_to_news)] in
  let w := world_with {[0 := plugin_a_consent]} 1 {["a" := 0]} [(0, 7)] (Some m) in
  let w_code := snd (processConsentQueue e0 w) in
  let w_path := snd (load_after_consent e0 0 7 (upd_queue (fun _ => []) w)) in
  let w2 := world_with {[0 := set_gates empty_tobj empty_tobj ["other.com"] ["analytics"] plugin_a]}
                       1 {["a" := 0]} [(0, 7)] None in
  option_map status (w_heap w_code !! 0) = Some "requested" /\
  option_map Experiments.m_applied (w_experiments w_code) = Some [] /\
  option_map status (w_heap w_path !! 0) = Some "ignore" /\
  option_map Experiments.m_applied (w_experiments w_path) = Some ["exp1"] /\
  nth_error (w_trace (snd (processConsentQueue e0 w2))) 1 =
    Some (EPublish "plugin.a.ignore" (Some "All targeting rules passed")) /\
  nth_error (w_trace (snd (load_after_consent e0 0 7 (upd_queue (fun _ => []) w2)))) 1 =
    Some (EPublish "plugin.a.ignore" (Some "Domain mismatch")).
Proof. vm_compute. repeat split. Qed.



(** ** C9 *)

(** C9 (code_bug): [executeLoad] calls [plugin.preloadFn()] and
    [handleIgnore] calls [plugin.ignoreFn(reason)] with no [try] around
    them, whereas a failing lifecycle hook is to be caught and treated as
    a no-op.  On a descriptor without [url]: when [preloadFn] throws,
    [executeLoad] throws before it reaches [handleIgnore] (no [ignore]
    status, no resolution); when [ignoreFn] throws, the descriptor is
    [ignore] but the exception propagates before any event or resolution.
    So [load] of [config_a_throwing] rejects its promise instead of
    resolving [ignore], and [processConsentQueue] throws to its caller.
    When both hooks return, the load does resolve [ignore] with "No URL
    provided"; and [unregister] of an id that is not registered leaves
    the registry unchanged. *)
Theorem C9_missing_url_hook_throws :
  (forall (e : env) (w : world) (r h : nat) (p : plugin) (err : string),
     w_heap w !! r = Some p -> str_truthy (url p) = false -> preloadFn (hooks p) = HThrows err ->
     fst (executeLoad e r h w) = Thrown err /\
     option_map status (w_heap (snd (executeLoad e r h w)) !! r) = Some (status p) /\
     w_trace (snd (executeLoad e r h w)) = app (w_trace w) [EHook (name p) "preloadFn"]) /\
  (forall (e : env) (w : world) (r h : nat) (p : plugin) (err : string),
     w_heap w !! r = Some p -> str_truthy (url p) = false -> preloadFn (hooks p) = HReturns ->
     ignoreFn (hooks p) = HThrows err ->
     fst (executeLoad e r h w) = Thrown err /\
     option_map status (w_heap (snd (executeLoad e r h w)) !! r) = Some "ignore" /\
     w_trace (snd (executeLoad e r h w)) =
       app (w_trace w) [EHook (name p) "preloadFn"; EHook (name p) "ignoreFn"]) /\
  (forall (e : env) (w : world) (r h : nat) (p : plugin),
     w_heap w !! r = Some p -> str_truthy (url p) = false -> preloadFn (hooks p) = HReturns ->
     ignoreFn (hooks p) = HReturns ->
     fst (executeLoad e r h w) = Ok tt /\
     exists p', w_heap (snd (executeLoad e r h w)) !! r = Some p' /\
                status p' = "ignore" /\ active p' = false /\
                last (w_trace (snd (executeLoad e r h w))) =
                  Some (EResolve h "ignore" (name p) (Some "No URL provided") None (performance p'))) /\
  (let e0 := env_with true [] [] in
   let w_load := snd (load e0 config_a_throwing 7 empty_world) in
   let w_queued := world_with {[0 := normalizePluginConfig e0 config_a_throwing]} 1 {["a" := 0]}
                              [(0, 7)] None in
   w_trace w_load = [EHook "a" "preloadFn"; EReject 7 "boom"] /\
   option_map status (w_heap w_load !! 0) = Some "init" /\
   fst (processConsentQueue e0 w_queued) = Thrown "boom" /\
   resolutions (w_trace (snd (processConsentQueue e0 w_queued))) = []) /\
  (forall (m : Experiments.manager) (id : string),
     ~ In id (map fst (Experiments.m_registry m)) -> Experiments.unregister id m = m).
Proof.
  split; [|split; [|split; [|split]]].
  - intros e w r h p err Hp Hu Hk.
    unfold executeLoad, with_plugin. rewrite Hp. run_M. rewrite Hk. run_M.
    repeat split; reflexivity.
  - intros e w r h p err Hp Hu Hk Hi.
    unfold executeLoad, with_plugin. rewrite Hp. run_M. rewrite Hk. run_M. rewrite Hu.
    unfold handleIgnore. run_M. rewrite Hi. run_M.
    repeat split; try reflexivity. rewrite <- !app_assoc. reflexivity.
  - intros e w r h p Hp Hu Hk Hi.
    unfold executeLoad, with_plugin. rewrite Hp. run_M. rewrite Hk. run_M. rewrite Hu.
    unfold handleIgnore. run_M. rewrite Hi. run_M.
    split; [reflexivity|].
    eexists. split; [reflexivity|].
    split; [reflexivity|]. split; [reflexivity|].
    apply last_snoc.
  - vm_compute. repeat split.
  - intros m id Hnot. unfold Experiments.unregister, Experiments.obj_delete.
    rewrite forallb_filter_id.
    + destruct m; reflexivity.
    + apply forallb_forall. intros [k v] Hin. simpl.
      destruct (String.eqb_spec id k) as [->|]; [|reflexivity].
      exfalso. apply Hnot. apply (in_map fst) in Hin. exact Hin.
Qed.

(** ** C4 *)





(** [load] once [load_select] has picked the descriptor [r]. *)
Lemma load_selected (e : env) (c : config) (h : nat) (w w0 : world) (r : nat) :
  load_select e c w = (Ok r, w0) -> load e c h w = executor h (load_gates e r h) w0.
Proof. intros Hs. unfold load, executor, catch, mbind, M_bind. rewrite Hs. reflexivity. Qed.

Lemma load_select_existing (e : env) (c : config) (w : world) (r : nat) :
  w_plugins w !! c_name c = Some r -> load_select e c w = (Ok r, w).
Proof. intros Hf. unfold load_select. run_M. rewrite Hf. reflexivity. Qed.

Lemma load_select_fresh (e : env) (c : config) (w : world) :
  w_plugins w !! c_name c = None ->
  load_select e c w =
  (Ok (w_next w), mk_world (<[w_next w := normalizePluginConfig e c]> (w_heap w)) (S (w_next w))
                           (w_plugins w) (w_metrics w) (w_queue w) (w_experiments w) (w_trace w)).
Proof. intros Hf. unfold load_select. run_M. rewrite Hf. reflexivity. Qed.











(** ** C8 *)

Lemma keeps_ret {A} (x : A) : keeps_map (mret x : M A).
Proof. intros w. split; reflexivity. Qed.

Lemma keeps_bind {A B} (c : M A) (k : A -> M B) :
  keeps_map c -> (forall x, keeps_map (k x)) -> keeps_map (mbind k c).
Proof.
  intros Hc Hk w. unfold mbind, M_bind.
  specialize (Hc w). destruct (c w) as [[x|err] w'] eqn:E; simpl in *; [|exact Hc].
  destruct (Hk x w') as [H1 H2]. destruct Hc as [H3 H4]. split; congruence.
Qed.

Lemma keeps_throw {A} (err : string) : keeps_map (throw err : M A).
Proof. intros w. split; reflexivity. Qed.

Lemma keeps_if {A} (b : bool) (c1 c2 : M A) :
  keeps_map c1 -> keeps_map c2 -> keeps_map (if b then c1 else c2).
Proof. destruct b; auto. Qed.

Lemma keeps_with_plugin (r : nat) (k : plugin -> M unit) :
  (forall p, keeps_map (k p)) -> keeps_map (with_plugin r k).
Proof.
  intros Hk w. unfold with_plugin. destruct (w_heap w !! r); [apply Hk|split; reflexivity].
Qed.

Lemma keeps_write (r : nat) (p : plugin) : keeps_map (write_plugin r p).
Proof. intros w. split; reflexivity. Qed.

Lemma keeps_emit (ef : effect) : keeps_map (emit ef).
Proof. intros w. split; reflexivity. Qed.

Lemma keeps_queue (f : list (nat * nat) -> list (nat * nat)) : keeps_map (modify (upd_queue f)).
Proof. intros w. split; reflexivity. Qed.

Lemma keeps_updateMetrics (p : plugin) : keeps_map (updateMetrics p).
Proof. intros w. split; reflexivity. Qed.

Lemma keeps_publish (e : env) (n ev : string) (rs : option string) :
  keeps_map (publishEvent e n ev rs).
Proof. intros w. split; reflexivity. Qed.

Lemma keeps_call_hook (p : plugin) (hk : string) (sel : hookset -> hook) :
  keeps_map (call_hook p hk sel).
Proof.
  unfold call_hook. apply keeps_bind; [apply keeps_emit|]. intros _.
  destruct (sel (hooks p)); [apply keeps_ret | apply keeps_throw].
Qed.

Lemma keeps_executor (h : nat) (c : M unit) : keeps_map c -> keeps_map (executor h c).
Proof.
  intros Hc w. unfold executor, catch. specialize (Hc w).
  destruct (c w) as [[x|err] w']; exact Hc.
Qed.

Lemma keeps_applyExperiments (r : nat) : keeps_map (applyExperiments r).
Proof.
  unfold applyExperiments. apply keeps_with_plugin. intros p w. destruct (w_experiments w) as [m|].
  - destruct (Experiments.apply m (Some (name p)) p). split; reflexivity.
  - split; reflexivity.
Qed.

Create HintDb keeps.
#[local] Hint Resolve keeps_ret keeps_bind keeps_if keeps_with_plugin keeps_write keeps_emit
  keeps_queue keeps_updateMetrics keeps_publish keeps_applyExperiments keeps_throw
  keeps_call_hook : keeps.

Ltac keeps_solve :=
  repeat (intros; first [ apply keeps_call_hook | apply keeps_bind | apply keeps_if
                        | apply keeps_with_plugin | eauto with keeps ]).

Lemma keeps_handleInactive (e : env) (r h : nat) : keeps_map (handleInactive e r h).
Proof. unfold handleInactive. keeps_solve. Qed.

Lemma keeps_handleIgnore (e : env) (r : nat) (rs : string) (h : nat) :
  keeps_map (handleIgnore e r rs h).
Proof. unfold handleIgnore. keeps_solve. Qed.

Lemma keeps_executeLoad (e : env) (r h : nat) : keeps_map (executeLoad e r h).
Proof. unfold executeLoad. keeps_solve; apply keeps_handleIgnore. Qed.

(** The same, with the handlers as leaves. *)
Ltac keeps_solve_handlers :=
  repeat (intros; first [ apply keeps_applyExperiments | apply keeps_handleIgnore
                        | apply keeps_handleInactive | apply keeps_executeLoad
                        | apply keeps_call_hook | apply keeps_bind | apply keeps_if | apply keeps_with_plugin
                        | eauto with keeps ]).

Lemma keeps_load_after_consent (e : env) (r h : nat) : keeps_map (load_after_consent e r h).
Proof. unfold load_after_consent. keeps_solve_handlers. Qed.

(** [load_gates] only records the descriptor under its own name. *)
Lemma load_gates_map (e : env) (r h : nat) (w : world) (p : plugin) :
  w_heap w !! r = Some p ->
  w_plugins (snd (load_gates e r h w)) = <[name p := r]> (w_plugins w) /\
  w_next (snd (load_gates e r h w)) = w_next w.
Proof.
  intros Hp. destruct (load_gates e r h w) as [u w'] eqn:E. simpl.
  unfold load_gates, with_plugin at 1 in E. rewrite Hp in E.
  set (rest := (let '(override, enabled) := checkUrlOverride e (name p) in _) : M unit) in E.
  assert (Hrest : keeps_map rest).
  { unfold rest. destruct (checkUrlOverride e (name p)) as [[|] [|]];
      repeat (intros; first [ apply keeps_load_after_consent | apply keeps_handleInactive
                            | apply keeps_bind | apply keeps_if | apply keeps_with_plugin
                            | eauto with keeps ]). }
  unfold mbind at 1, M_bind at 1 in E. simpl in E.
  destruct (Hrest (upd_plugins (insert (name p) r) w)) as [H1 H2].
  rewrite E in H1, H2. simpl in *. split; assumption.
Qed.

(** The executor keeps [this.plugins] and the allocation counter of its
    body. *)
Lemma keeps_executor_gates (h : nat) (c : M unit) (w : world) :
  w_plugins (snd (executor h c w)) = w_plugins (snd (c w)) /\
  w_next (snd (executor h c w)) = w_next (snd (c w)).
Proof. unfold executor, catch. destruct (c w) as [[x|err] w']; split; reflexivity. Qed.

(** Claim C8, as stated, refuted through [register]: with descriptor "a"
    stored as object 0 and already [loaded], [register({name: 'a', ...})]
    stores a new object 1 under "a", with status [init]. *)
Lemma C8_register_counterexample :
  let e0 := env_with true [] [] in
  let w := world_with {[0 := set_status "loaded" plugin_a]} 1 {["a" := 0]} [] None in
  let c := Loader.mk_config "a" (Some "https://x/y.js") None None None None None None None None [] in
  let w' := snd (register e0 c w) in
  w_plugins w' !! "a" <> Some 0 /\
  w_plugins w' !! "a" = Some 1 /\
  option_map status (w_heap w' !! 1) = Some "init" /\
  option_map status (w_heap w' !! 0) = Some "loaded".
Proof. vm_compute. repeat split. discriminate. Qed.

(** C8 (amended): [this.plugins] maps each name to one descriptor.  [load]
    reuses the descriptor stored under the config's name: the name still
    maps to the same object afterwards and no descriptor object is
    created, so its accumulated status, performance and mutations carry
    over.  [register] does not reuse: it always stores a freshly
    normalized descriptor under the name (status from the config or
    [init], new performance record), replacing the stored one. *)
Theorem C8_one_descriptor_per_name (e : env) (w : world) (c : config) (h r : nat) (p : plugin) :
  w_plugins w !! c_name c = Some r ->
  w_heap w !! r = Some p ->
  (w_plugins (snd (load e c h w)) = <[name p := r]> (w_plugins w) /\
   w_plugins (snd (load e c h w)) !! c_name c = Some r /\
   w_next (snd (load e c h w)) = w_next w) /\
  ((forall r', is_Some (w_heap w !! r') -> r' < w_next w) ->
   exists r'', w_plugins (snd (register e c w)) !! c_name c = Some r'' /\ r'' <> r /\
               w_heap (snd (register e c w)) !! r'' = Some (normalizePluginConfig e c)).
Proof.
  intros Hf Hp. split.
  - rewrite (load_selected e c h w w r (load_select_existing e c w r Hf)).
    destruct (load_gates_map e r h w p Hp) as [H1 H2].
    destruct (keeps_executor_gates h (load_gates e r h) w) as [H3 H4].
    rewrite H3, H4, H1, H2. split; [reflexivity|]. split; [|reflexivity].
    destruct (String.eqb_spec (name p) (c_name c)) as [<-|Hne].
    + apply lookup_insert_eq.
    + rewrite lookup_insert_ne by congruence. exact Hf.
  - intros Hfresh. exists (w_next w).
    unfold register. run_M. split; [reflexivity|].
    split; [|reflexivity].
    intros Heq. assert (Hlt : r < w_next w) by (apply Hfresh; rewrite Hp; eexists; reflexivity).
    lia.
Qed.

Lemma C8_one_descriptor_per_name_witness :
  let e0 := env_with true [] [] in
  let w := world_with {[0 := set_status "loaded" plugin_a]} 1 {["a" := 0]} [] None in
  let c := Loader.mk_config "a" (Some "https://x/y.js") None None None None None None None None [] in
  w_plugins (snd (load e0 c 7 w)) !! "a" = Some 0 /\ w_next (snd (load e0 c 7 w)) = 1.
Proof.
  intros e0 w c.
  destruct (C8_one_descriptor_per_name e0 w c 7 0 (set_status "loaded" plugin_a) eq_refl eq_refl)
    as [[_ [H1 H2]] _].
  split; [exact H1 | exact H2].
Defined.

End LoaderClaims.


(* ================================================================== *)
(** * Further properties of the code *)

(** ** Targeting *)

Section TargetingProps.
Import Views.

Lemma lower_ascii_idem (c : ascii) : lower_ascii (lower_ascii c) = lower_ascii c.
Proof.
  destruct c as [b0 b1 b2 b3 b4 b5 b6 b7].
  destruct b0, b1, b2, b3, b4, b5, b6, b7; vm_compute; reflexivity.
Qed.

Lemma toLowerCase_idem (s : string) : toLowerCase (toLowerCase s) = toLowerCase s.
Proof. induction s as [|c s IH]; simpl; [reflexivity|]. rewrite lower_ascii_idem, IH. reflexivity. Qed.

Lemma existsb_map_lower (g : string -> bool) (rules : list string) :
  existsb (fun rule => g (toLowerCase rule)) rules = existsb g (map toLowerCase rules).
Proof. induction rules as [|r rs IH]; simpl; [reflexivity|]. rewrite IH. reflexivity. Qed.

Lemma arr_includes_false (l : list string) (x : string) : ~ In x l -> arr_includes l x = false.
Proof.
  intros H. destruct (arr_includes l x) eqn:E; [|reflexivity].
  apply arr_includes_In in E. contradiction.
Qed.

(** Rule matching ignores case on both sides: lower-casing the value or
    changing the case of the rules does not change [matchesRule] or
    [isExcluded] (as long as no rule is the wildcard).  The wildcard test
    itself is case-sensitive: a rule "ALL" is an ordinary rule that only
    matches the value "all" in any case. *)
Theorem matching_ignores_case (s : string) (rules rules' : list string) (mt : string) :
  map toLowerCase rules = map toLowerCase rules' ->
  ~ In "all" rules -> ~ In "all" rules' ->
  matchesRule (JStr (toLowerCase s)) rules mt = matchesRule (JStr s) rules' mt /\
  isExcluded (JStr (toLowerCase s)) rules mt = isExcluded (JStr s) rules' mt /\
  matchesRule (JStr s) ["ALL"] "exact" = String.eqb (toLowerCase s) "all".
Proof.
  intros Hmap Ha Ha'.
  assert (Hlen : rules = [] <-> rules' = []).
  { destruct rules, rules'; simpl in Hmap; split; congruence. }
  split; [|split].
  - unfold matchesRule. destruct rules as [|r rs], rules' as [|r' rs'];
      try (destruct Hlen as [H1 H2]; discriminate (H1 eq_refl) || discriminate (H2 eq_refl));
      [reflexivity|].
    rewrite (arr_includes_false _ _ Ha), (arr_includes_false _ _ Ha').
    simpl js_String. rewrite toLowerCase_idem.
    rewrite !(existsb_map_lower (fun x => startsWith (toLowerCase s) x)),
            !(existsb_map_lower (fun x => includes (toLowerCase s) x)),
            !(existsb_map_lower (fun x => String.eqb (toLowerCase s) x)).
    rewrite Hmap. reflexivity.
  - unfold isExcluded. destruct rules as [|r rs], rules' as [|r' rs'];
      try (destruct Hlen as [H1 H2]; discriminate (H1 eq_refl) || discriminate (H2 eq_refl));
      [reflexivity|].
    simpl js_String. rewrite toLowerCase_idem.
    rewrite !(existsb_map_lower (fun x => startsWith (toLowerCase s) x)),
            !(existsb_map_lower (fun x => includes (toLowerCase s) x)),
            !(existsb_map_lower (fun x => String.eqb (toLowerCase s) x)).
    rewrite Hmap. reflexivity.
  - simpl. apply orb_false_r.
Qed.

(** On a nonempty rule list without the wildcard, [matchesRule] and
    [isExcluded] give the same answer; they differ only on an empty list
    (include passes, exclude does not exclude) and on the wildcard. *)
Theorem matchesRule_isExcluded_agree (v : jsval) (rules : list string) (mt : string) :
  rules <> [] -> ~ In "all" rules ->
  matchesRule v rules mt = isExcluded v rules mt /\
  matchesRule v [] mt = true /\ isExcluded v [] mt = false.
Proof.
  intros Hne Ha. split; [|split; reflexivity].
  unfold matchesRule, isExcluded. destruct rules as [|r rs]; [congruence|].
  rewrite (arr_includes_false _ _ Ha). reflexivity.
Qed.

Lemma prefix_refl (s : string) : String.prefix s s = true.
Proof. induction s as [|c s IH]; simpl; [reflexivity|]. destruct (ascii_dec c c); [exact IH | congruence]. Qed.

Lemma includes_of_prefix (s n : string) : String.prefix n s = true -> includes s n = true.
Proof.
  intros H.
  assert (E : includes s n = String.prefix n s ||
                match s with EmptyString => false | String _ s' => includes s' n end)
    by (destruct s; reflexivity).
  rewrite E, H. reflexivity.
Qed.

Lemma existsb_impl {A} (f g : A -> bool) (l : list A) :
  (forall x, f x = true -> g x = true) -> existsb f l = true -> existsb g l = true.
Proof.
  intros Hfg H. apply existsb_exists in H as (x & Hx & Hf).
  apply existsb_exists. exists x. auto.
Qed.

Lemma compare_nested (nv : string) (rules : list string) :
  (compare_with "exact" nv rules = true -> compare_with "startsWith" nv rules = true) /\
  (compare_with "startsWith" nv rules = true -> compare_with "includes" nv rules = true).
Proof.
  unfold compare_with; simpl. split; apply existsb_impl; intros x H.
  - apply String.eqb_eq in H. rewrite H. unfold startsWith. apply prefix_refl.
  - apply includes_of_prefix. exact H.
Qed.

Lemma compare_other (mt nv : string) (rules : list string) :
  mt <> "startsWith" -> mt <> "includes" -> compare_with mt nv rules = compare_with "exact" nv rules.
Proof.
  intros H1 H2. unfold compare_with.
  apply String.eqb_neq in H1, H2. rewrite H1, H2. reflexivity.
Qed.

Lemma matchesRule_compare v rules mt :
  matchesRule v rules mt =
  match rules with
  | [] => true
  | _ => arr_includes rules "all" || compare_with mt (toLowerCase (js_String v)) rules
  end.
Proof. unfold matchesRule. destruct rules; [reflexivity|]. destruct (arr_includes _ "all"); reflexivity. Qed.

Lemma isExcluded_compare v rules mt :
  isExcluded v rules mt =
  match rules with
  | [] => false
  | _ => compare_with mt (toLowerCase (js_String v)) rules
  end.
Proof. reflexivity. Qed.

(** The match types are nested: an exact match is a prefix match and a
    prefix match is a substring match, for include and exclude rules;
    any match type other than "startsWith" and "includes" (a typo, say)
    behaves as "exact". *)
Theorem match_types_nested (v : jsval) (rules : list string) (mt : string) :
  mt <> "startsWith" -> mt <> "includes" ->
  (matchesRule v rules "exact" = true -> matchesRule v rules "startsWith" = true) /\
  (matchesRule v rules "startsWith" = true -> matchesRule v rules "includes" = true) /\
  (isExcluded v rules "exact" = true -> isExcluded v rules "startsWith" = true) /\
  (isExcluded v rules "startsWith" = true -> isExcluded v rules "includes" = true) /\
  matchesRule v rules mt = matchesRule v rules "exact" /\
  isExcluded v rules mt = isExcluded v rules "exact".
Proof.
  intros H1 H2. rewrite !matchesRule_compare, !isExcluded_compare.
  destruct (compare_nested (toLowerCase (js_String v)) rules) as [Ha Hb].
  destruct rules as [|r rs]; [repeat split; auto|].
  rewrite (compare_other mt _ _ H1 H2).
  repeat split; auto; destruct (arr_includes _ "all"); simpl; auto.
Qed.


(** [matchesDomain]: an empty domain list allows every page; otherwise,
    without the "all" wildcard, the page is allowed exactly when the
    host is listed, the host being [currentDomain] when it is a nonempty
    string and [window.location.host] otherwise. *)
Theorem matchesDomain_listed_host (ds : list string) (cd : option string) (wh : string) :
  matchesDomain [] cd wh = true /\
  (ds <> [] -> ~ In "all" ds ->
   (matchesDomain ds cd wh = true <-> In (if str_truthy cd then default "" cd else wh) ds)).
Proof.
  split; [reflexivity|]. intros Hne Hall.
  assert (Ha : arr_includes ds "all" = false).
  { destruct (arr_includes ds "all") eqn:E; [|reflexivity].
    exfalso. apply Hall. apply arr_includes_In. exact E. }
  destruct ds as [|d ds]; [congruence|]. unfold matchesDomain. rewrite Ha.
  split; [apply arr_includes_In | intros H; apply arr_includes_In; exact H].
Qed.

End TargetingProps.

(** ** Experiment manager *)

Section ManagerProps.
Import Experiments.
Import Views.

Lemma assoc_app {A} (k : string) (l1 l2 : list (string * A)) :
  assoc k (app l1 l2) = match assoc k l1 with Some v => Some v | None => assoc k l2 end.
Proof.
  induction l1 as [|[k0 v0] l1 IH]; simpl; [reflexivity|].
  destruct (String.eqb k k0); [reflexivity | exact IH].
Qed.

Lemma existsb_eqb_In (l : list string) (k : string) : existsb (String.eqb k) l = true <-> In k l.
Proof.
  rewrite existsb_exists. split.
  - intros (x & Hx & E). apply String.eqb_eq in E. subst. exact Hx.
  - intros H. exists k. split; [exact H | apply String.eqb_refl].
Qed.

Lemma assoc_absent {A} (k : string) (l : list (string * A)) : ~ In k (map fst l) -> assoc k l = None.
Proof.
  induction l as [|[k' v] l IH]; simpl; intros H; [reflexivity|].
  destruct (String.eqb_spec k k') as [->|]; [exfalso; apply H; left; reflexivity|].
  apply IH. intros Hin. apply H. right. exact Hin.
Qed.

Lemma assoc_replace {A} (k k0 : string) (v : A) (l : list (string * A)) :
  assoc k0 (map (fun kv => if String.eqb k kv.1 then (k, v) else kv) l) =
  if String.eqb k0 k then (if existsb (String.eqb k) (map fst l) then Some v else None)
  else assoc k0 l.
Proof.
  induction l as [|[k1 v1] l IH]; simpl.
  - destruct (String.eqb k0 k); reflexivity.
  - destruct (String.eqb_spec k k1) as [->|Hne]; simpl.
    + destruct (String.eqb_spec k0 k1) as [->|Hne']; [reflexivity|].
      rewrite IH. reflexivity.
    + rewrite IH. destruct (String.eqb_spec k0 k) as [->|Hne'].
      * apply String.eqb_neq in Hne. rewrite Hne. reflexivity.
      * reflexivity.
Qed.

Lemma assoc_insert_index {A} (k k0 : string) (n : N) (v : A) (l : list (string * A)) :
  ~ In k (map fst l) ->
  assoc k0 (insert_index k n v l) = if String.eqb k0 k then Some v else assoc k0 l.
Proof.
  induction l as [|[k1 v1] l IH]; intros Hn; simpl; [reflexivity|].
  assert (Hk : k <> k1) by (intros ->; apply Hn; left; reflexivity).
  assert (Hl : ~ In k (map fst l)) by (intros H; apply Hn; right; exact H).
  destruct (array_index k1) as [n'|]; [destruct (n <? n')%N|]; simpl; try reflexivity.
  rewrite IH by exact Hl. destruct (String.eqb_spec k0 k1) as [->|]; [|reflexivity].
  apply not_eq_sym, String.eqb_neq in Hk. rewrite Hk. reflexivity.
Qed.

Lemma assoc_obj_set {A} (k k' : string) (v : A) (l : list (string * A)) :
  assoc k (obj_set k' v l) = if String.eqb k k' then Some v else assoc k l.
Proof.
  unfold obj_set. destruct (existsb (String.eqb k') (map fst l)) eqn:E.
  - rewrite assoc_replace, E. reflexivity.
  - assert (Hn : ~ In k' (map fst l)) by (intros H; apply existsb_eqb_In in H; congruence).
    destruct (array_index k') as [n|].
    + apply assoc_insert_index. exact Hn.
    + rewrite assoc_app. destruct (String.eqb_spec k k') as [->|Hne].
      * rewrite assoc_absent by exact Hn. simpl. rewrite String.eqb_refl. reflexivity.
      * simpl. apply String.eqb_neq in Hne. rewrite Hne. destruct (assoc k l); reflexivity.
Qed.






Lemma apply_loop_records (m : manager) (pn : option string) (entries : list (string * experiment)) :
  forall p ap el,
  let '(_, ap', el') := apply_loop m pn entries (p, ap, el) in
  exists nap nel, ap' = app ap nap /\ el' = app el nel /\
    Forall (fun xid => isInExperiment m xid = true /\ qualifies m pn entries xid) nap /\
    Forall (fun xid => isInExperiment m xid = false /\ qualifies m pn entries xid) nel.
Proof.
  induction entries as [|[xid exp] entries IH]; intros p ap el.
  - exists [], []. rewrite !app_nil_r. repeat split; constructor.
  - change (apply_loop m pn ((xid, exp) :: entries) (p, ap, el))
      with (apply_loop m pn entries (apply_step m pn (p, ap, el) (xid, exp))).
    assert (Hq : forall i, qualifies m pn entries i -> qualifies m pn ((xid, exp) :: entries) i).
    { intros i (ex & Hin & H1). exists ex. split; [right; exact Hin | exact H1]. }
    unfold apply_step.
    destruct (e_active exp && isMatch pn exp) eqn:Ea;
      [|specialize (IH p ap el); destruct (apply_loop m pn entries (p, ap, el)) as [[p1 ap1] el1];
        destruct IH as (nap & nel & H1 & H2 & H3 & H4); exists nap, nel;
        repeat split; auto; eapply Forall_impl; eauto; intros i [Hi Hq']; auto].
    apply andb_true_iff in Ea as [Ea Em].
    destruct (targetingMatches m exp) eqn:Et;
      [|specialize (IH p ap el); destruct (apply_loop m pn entries (p, ap, el)) as [[p1 ap1] el1];
        destruct IH as (nap & nel & H1 & H2 & H3 & H4); exists nap, nel;
        repeat split; auto; eapply Forall_impl; eauto; intros i [Hi Hq']; auto].
    assert (Hself : qualifies m pn ((xid, exp) :: entries) xid).
    { exists exp. split; [left; reflexivity | auto]. }
    destruct (isInExperiment m xid) eqn:Ei; [destruct (e_apply exp p) as [p'|p'] |].
    + specialize (IH p' (app ap [xid]) el).
      destruct (apply_loop m pn entries (p', app ap [xid], el)) as [[p1 ap1] el1].
      destruct IH as (nap & nel & H1 & H2 & H3 & H4). exists (xid :: nap), nel.
      split; [rewrite H1, <- app_assoc; reflexivity|]. split; [exact H2|].
      split; [constructor; [auto|] |]; eapply Forall_impl; eauto; intros i [Hi Hq']; auto.
    + specialize (IH p' ap el).
      destruct (apply_loop m pn entries (p', ap, el)) as [[p1 ap1] el1].
      destruct IH as (nap & nel & H1 & H2 & H3 & H4). exists nap, nel.
      repeat split; auto; eapply Forall_impl; eauto; intros i [Hi Hq']; auto.
    + specialize (IH p ap (app el [xid])).
      destruct (apply_loop m pn entries (p, ap, app el [xid])) as [[p1 ap1] el1].
      destruct IH as (nap & nel & H1 & H2 & H3 & H4). exists nap, (xid :: nel).
      split; [exact H1|]. split; [rewrite H2, <- app_assoc; reflexivity|].
      split; [|constructor; [auto|]]; eapply Forall_impl; eauto; intros i [Hi Hq']; auto.
Qed.

(** [apply] only appends to [applied] and [eligible], and what it
    appends are registered ids whose experiment is active, is for this
    plugin (or global when no name is given) and matches the context: to
    [applied] those whose bucket is in range, to [eligible] the others.
    The registry, the bucket and the active flag are left as they are. *)
Theorem apply_records_registered (m : manager) (pn : option string) (p : plugin) :
  m_registry (fst (apply m pn p)) = m_registry m /\
  m_testgroup (fst (apply m pn p)) = m_testgroup m /\
  m_active (fst (apply m pn p)) = m_active m /\
  exists nap nel,
    m_applied (fst (apply m pn p)) = app (m_applied m) nap /\
    m_eligible (fst (apply m pn p)) = app (m_eligible m) nel /\
    Forall (fun xid => isInExperiment m xid = true /\ qualifies m pn (m_registry m) xid) nap /\
    Forall (fun xid => isInExperiment m xid = false /\ qualifies m pn (m_registry m) xid) nel.
Proof.
  unfold apply. destruct (negb (m_active m)) eqn:Ea.
  - cbn [fst]. repeat split; try reflexivity. exists [], [].
    rewrite !app_nil_r. repeat split; constructor.
  - pose proof (apply_loop_records m pn (m_registry m) p (m_applied m) (m_eligible m)) as H.
    destruct (apply_loop m pn (m_registry m) (p, m_applied m, m_eligible m)) as [[p1 ap1] el1].
    cbn [fst m_registry m_testgroup m_active m_applied m_eligible set_lists].
    repeat split; try reflexivity. exact H.
Qed.

Lemma apply_loop_skip (m : manager) (pn : option string) (entries : list (string * experiment))
      (s : loop_state) :
  Forall (fun kv => isMatch pn kv.2 = false) entries -> apply_loop m pn entries s = s.
Proof.
  revert s. induction entries as [|[xid exp] entries IH]; intros s H; [reflexivity|].
  inversion H as [|? ? Hx Hr]; subst. simpl in Hx.
  change (apply_loop m pn ((xid, exp) :: entries) s)
    with (apply_loop m pn entries (apply_step m pn s (xid, exp))).
  destruct s as [[p ap] el]. unfold apply_step. rewrite Hx, andb_false_r. auto.
Qed.

(** For a plugin with a non-empty name, [apply] ignores every experiment
    that does not name this plugin, global ones (no [plugin]) included:
    when there is no other, it changes neither the manager nor the
    descriptor.  The name "" is falsy: for it [apply] selects the global
    experiments, as when no name is given. *)
Theorem apply_named_skips_others (m : manager) (n : string) (p : plugin) :
  n <> "" -> Forall (fun kv => e_plugin kv.2 <> Some n) (m_registry m) ->
  apply m (Some n) p = (m, p) /\
  (forall exp, isMatch (Some "") exp = isMatch None exp).
Proof.
  intros Hn Hall. split; [|reflexivity].
  unfold apply. destruct (negb (m_active m)); [reflexivity|].
  rewrite apply_loop_skip.
  - destruct m; reflexivity.
  - eapply Forall_impl; [exact Hall|]. intros [xid exp] Hne. simpl in *.
    unfold isMatch. simpl. apply String.eqb_neq in Hn. rewrite Hn. simpl.
    destruct (e_plugin exp) as [q|]; [|reflexivity].
    apply String.eqb_neq. congruence.
Qed.

Lemma getTargetingIds_lists (m : manager) :
  getTargetingIds m = app (map (fun i => i ++ "_a") (m_applied m)) (map (fun i => i ++ "_e") (m_eligible m)).
Proof.
  unfold getTargetingIds.
  assert (G : forall (f : string -> string) l acc,
             fold_left (fun ids i => app ids [f i]) l acc = app acc (map f l)).
  { intros f l. induction l as [|a l IH]; intros acc; simpl; [rewrite app_nil_r; reflexivity|].
    rewrite IH, <- app_assoc. reflexivity. }
  rewrite !G. reflexivity.
Qed.

(** After [clear()] nobody is in any experiment, [apply] changes nothing
    (neither the descriptor nor the lists), and the status and the
    targeting ids are empty.  [reset()] empties the two lists and the
    targeting ids but keeps the registry. *)
Theorem clear_forgets (m : manager) :
  (forall pn p, apply (clear m) pn p = (clear m, p)) /\
  (forall xid, isInExperiment (clear m) xid = false) /\
  getStatus (clear m) = (m_testgroup m, [], []) /\
  getTargetingIds (clear m) = [] /\
  m_registry (reset m) = m_registry m /\
  getTargetingIds (reset m) = [].
Proof.
  split; [|split; [|split; [|split; [|split]]]]; try reflexivity.
  - intros pn p. unfold apply. destruct (negb (m_active (clear m))); [reflexivity|].
    destruct m; reflexivity.
  - intros xid. unfold isInExperiment. destruct (negb _); reflexivity.
Qed.

(** [new ExperimentManager(config)]: without a [testgroup] the bucket
    drawn from [Math.random()] lies in [0, 99]; a given [testgroup] is
    kept as it is, 0 included ([??], not [||]); the manager is active
    unless [active: false], and before any [register] nobody is in an
    experiment. *)
Theorem create_manager (o : manager_options) (r : Q) :
  (0 <= r)%Q -> (r < 1)%Q ->
  (o_testgroup o = None -> (0 <= m_testgroup (create o r) <= 99)%Z) /\
  (forall tg, o_testgroup o = Some tg -> m_testgroup (create o r) = tg) /\
  (m_active (create o r) = false <-> o_active o = Some false) /\
  (forall xid, isInExperiment (create o r) xid = false).
Proof.
  intros H0 H1. split; [|split; [|split]].
  - intros Hn. unfold create. rewrite Hn. cbn [m_testgroup].
    assert (Hlo : (0 <= r * inject_Z 100)%Q).
    { apply Qmult_le_0_compat; [exact H0 | unfold Qle; simpl; lia]. }
    assert (Hhi : (r * inject_Z 100 < inject_Z 100)%Q).
    { rewrite <- (Qmult_1_l (inject_Z 100)) at 2. apply Qmult_lt_r; [reflexivity | exact H1]. }
    split.
    + pose proof (Qfloor_resp_le 0 _ Hlo) as Hf. simpl in Hf. exact Hf.
    + pose proof (Qfloor_le (r * inject_Z 100)) as Hf.
      assert (Hz : (inject_Z (Qfloor (r * inject_Z 100)) < inject_Z 100)%Q)
        by (eapply Qle_lt_trans; [exact Hf | exact Hhi]).
      rewrite <- Zlt_Qlt in Hz. lia.
  - intros tg Htg. unfold create. rewrite Htg. reflexivity.
  - unfold create. cbn [m_active]. destruct (o_active o) as [[|]|]; split; congruence.
  - intros xid. unfold isInExperiment, create. cbn [m_registry assoc]. destruct (negb _); reflexivity.
Qed.

End ManagerProps.

(** ** Loader *)

Section LoaderProps.
Import Experiments.
Import Loader.
Import Views.

Lemma split_comma_cons (s : string) : exists x xs, split_comma s = x :: xs.
Proof.
  induction s as [|c s (x & xs & IH)]; simpl; [eauto|]. rewrite IH.
  destruct (Ascii.eqb c ","); eauto.
Qed.

Lemma append_empty_l (s : string) : "" ++ s = s.
Proof. reflexivity. Qed.

Lemma append_cons (c : ascii) (s t : string) : String c s ++ t = String c (s ++ t).
Proof. reflexivity. Qed.

Lemma split_comma_app (s rest : string) :
  comma_free s -> split_comma (s ++ "," ++ rest) = s :: split_comma rest.
Proof.
  induction s as [|c s IH]; intros Hs.
  - rewrite !append_empty_l, append_cons, append_empty_l. simpl.
    destruct (split_comma_cons rest) as (x & xs & E). rewrite E. reflexivity.
  - rewrite append_cons. simpl. rewrite IH.
    + assert (Hc : c <> ","%char) by (apply Hs; left; reflexivity).
      apply Ascii.eqb_neq in Hc. rewrite Hc. reflexivity.
    + intros d Hd. apply Hs. right. exact Hd.
Qed.

Lemma split_comma_single (s : string) : comma_free s -> split_comma s = [s].
Proof.
  induction s as [|c s IH]; intros Hs; [reflexivity|].
  simpl. rewrite IH.
  - assert (Hc : c <> ","%char) by (apply Hs; left; reflexivity).
    apply Ascii.eqb_neq in Hc. rewrite Hc. reflexivity.
  - intros d Hd. apply Hs. right. exact Hd.
Qed.

Lemma split_comma_concat (names : list string) :
  names <> [] -> Forall comma_free names -> split_comma (String.concat "," names) = names.
Proof.
  induction names as [|a names IH]; intros Hne Hall; [congruence|].
  inversion Hall as [|? ? Ha Hr]; subst.
  destruct names as [|b names].
  - simpl. apply split_comma_single. exact Ha.
  - change (String.concat "," (a :: b :: names)) with (a ++ "," ++ String.concat "," (b :: names)).
    rewrite split_comma_app by exact Ha. rewrite IH; [reflexivity|discriminate|exact Hr].
Qed.

(** [getUrlOverrides()]: the lists never contain an empty name (so
    "a,,b" and a trailing comma are harmless), outside a browser both are
    empty, and joining non-empty, comma-free names with "," and parsing
    the result gives the names back. *)
Theorem getUrlOverrides_roundtrip (names : list string) :
  Forall (fun s => s <> "" /\ comma_free s) names ->
  parse_list (Some (String.concat "," names)) = names /\
  (forall ib pe pd, ~ In "" (getUrlOverrides ib pe pd).1 /\ ~ In "" (getUrlOverrides ib pe pd).2) /\
  (forall pe pd, getUrlOverrides false pe pd = ([], [])).
Proof.
  intros Hall. split; [|split].
  - unfold parse_list. cbn [default id].
    destruct names as [|a names]; [reflexivity|].
    rewrite split_comma_concat; [|discriminate|].
    + apply forallb_filter_id, forallb_forall. intros x Hx.
      rewrite List.Forall_forall in Hall. destruct (Hall x Hx) as [Hn _].
      apply String.eqb_neq in Hn. rewrite Hn. reflexivity.
    + eapply Forall_impl; [exact Hall|]. intros x [_ H]. exact H.
  - intros ib pe pd.
    assert (Hp : forall q, ~ In "" (parse_list q)).
    { intros q Hin. unfold parse_list in Hin. apply filter_In in Hin as [_ Hf].
      rewrite String.eqb_refl in Hf. discriminate. }
    unfold getUrlOverrides. destruct ib; simpl; split; auto.
  - reflexivity.
Qed.

(** [checkUrlOverride(name)]: an explicit enable wins over every disable;
    without it, [disable=all] or a disable of the name turns the plugin
    off; otherwise there is no override. *)
Theorem checkUrlOverride_precedence (e : env) (n : string) :
  (In n (url_enable e) -> checkUrlOverride e n = (true, true)) /\
  (~ In n (url_enable e) -> In "all" (url_disable e) \/ In n (url_disable e) ->
   checkUrlOverride e n = (true, false)) /\
  (~ In n (url_enable e) -> ~ In "all" (url_disable e) -> ~ In n (url_disable e) ->
   checkUrlOverride e n = (false, true)).
Proof.
  unfold checkUrlOverride.
  assert (F : forall l x, ~ In x l -> arr_includes l x = false).
  { intros l x H. destruct (arr_includes l x) eqn:E; [|reflexivity].
    apply arr_includes_In in E. contradiction. }
  split; [|split].
  - intros H. apply arr_includes_In in H. rewrite H.
    destruct (arr_includes (url_disable e) "all"); reflexivity.
  - intros H1 [H2|H2]; rewrite (F _ _ H1).
    + apply arr_includes_In in H2. rewrite H2. reflexivity.
    + apply arr_includes_In in H2. rewrite H2.
      destruct (arr_includes (url_disable e) "all"); reflexivity.
  - intros H1 H2 H3. rewrite (F _ _ H1), (F _ _ H2), (F _ _ H3). reflexivity.
Qed.

Lemma assoc_not_in {A} (k : string) (l : list (string * A)) : ~ In k (map fst l) -> assoc k l = None.
Proof.
  induction l as [|[k' v] l IH]; simpl; intros H; [reflexivity|].
  destruct (String.eqb_spec k k') as [->|]; [exfalso; apply H; left; reflexivity|].
  apply IH. intros Hin. apply H. right. exact Hin.
Qed.

Lemma assoc_fold_obj_set {A} (l acc : list (string * A)) (k : string) :
  assoc k (fold_left (fun acc kv => obj_set kv.1 kv.2 acc) l acc) =
  match assoc k (rev l) with Some v => Some v | None => assoc k acc end.
Proof.
  revert acc. induction l as [|[k' v'] l IH]; intros acc; simpl; [reflexivity|].
  rewrite IH, assoc_obj_set, assoc_app. simpl.
  destruct (assoc k (rev l)); [reflexivity|].
  destruct (String.eqb k k'); reflexivity.
Qed.

Lemma assoc_rev_nodup {A} (l : list (string * A)) (k : string) :
  List.NoDup (map fst l) -> assoc k (rev l) = assoc k l.
Proof.
  induction l as [|[k' v'] l IH]; intros Hnd; simpl; [reflexivity|].
  inversion Hnd as [|? ? Hn Hr]; subst.
  rewrite assoc_app, IH by exact Hr. simpl.
  destruct (String.eqb_spec k k') as [->|].
  - rewrite assoc_not_in by exact Hn. reflexivity.
  - destruct (assoc k l); reflexivity.
Qed.

Lemma assoc_obj_spread {A} (base over : list (string * A)) (k : string) :
  List.NoDup (map fst base) -> List.NoDup (map fst over) ->
  assoc k (obj_spread base over) = match assoc k over with Some v => Some v | None => assoc k base end.
Proof.
  intros Hb Ho. unfold obj_spread. rewrite assoc_fold_obj_set, rev_app_distr, assoc_app.
  rewrite !assoc_rev_nodup by assumption.
  destruct (assoc k over); [reflexivity|]. destruct (assoc k base); reflexivity.
Qed.

(** [new PluginLoader(config)]: a dimension (or dimension config) given
    in the options replaces the generated one of the same name, the
    others are kept; the event prefix defaults to "plugin" and the
    consent check to [() => true]. *)
Theorem make_env_merges (gen : list (string * dimension)) (gdc : dimconfig)
    (o : loader_options) (ib : bool) (pe pd : option string) (hst : string) (t : Z) (k : string) :
  List.NoDup (map fst gen) -> List.NoDup (map fst gdc) ->
  List.NoDup (map fst (default [] (lo_dimensions o))) ->
  List.NoDup (map fst (default [] (lo_dimensionConfig o))) ->
  let e := make_env gen gdc o ib pe pd hst t in
  assoc k (dimensions e) =
    match assoc k (default [] (lo_dimensions o)) with Some d => Some d | None => assoc k gen end /\
  assoc k (dimensionConfig e) =
    match assoc k (default [] (lo_dimensionConfig o)) with Some d => Some d | None => assoc k gdc end /\
  (lo_eventPrefix o = None -> eventPrefix e = "plugin") /\
  (lo_consentCheck o = None -> forall l, consentCheck e l = true).
Proof.
  intros G1 G2 H1 H2 e.
  assert (Hd : dimensions e = obj_spread gen (default [] (lo_dimensions o)) /\
               dimensionConfig e = obj_spread gdc (default [] (lo_dimensionConfig o)) /\
               eventPrefix e = (if str_truthy (lo_eventPrefix o) then default "" (lo_eventPrefix o) else "plugin") /\
               consentCheck e = default (fun _ => true) (lo_consentCheck o)).
  { unfold e, make_env. destruct (getUrlOverrides ib pe pd). repeat split. }
  destruct Hd as (Hd1 & Hd2 & Hd3 & Hd4).
  split; [|split; [|split]].
  - rewrite Hd1. apply assoc_obj_spread; assumption.
  - rewrite Hd2. apply assoc_obj_spread; assumption.
  - intros Hn. rewrite Hd3, Hn. reflexivity.
  - intros Hn l. rewrite Hd4, Hn. reflexivity.
Qed.

Ltac run_W :=
  repeat (unfold mbind, M_bind, mret, M_ret, write_plugin, modify, emit, call_hook, throw,
            updateMetrics, publishEvent, with_plugin, upd_heap, upd_metrics, upd_queue,
            upd_plugins, upd_experiments, gets in *; simpl in *;
          try rewrite lookup_insert_eq in *; simpl in *).

Lemma snoc4 {A} (a : list A) (x y z u : A) :
  app (app (app (app a [x]) [y]) [z]) [u] = app a (app [x; y] [z; u]).
Proof. rewrite <- !app_assoc. reflexivity. Qed.

(** A callback on a [requested] descriptor settles it with its status;
    then its hook runs: when the hook returns, "complete" is published
    and the promise resolved; when it throws, the callback stops right
    after the hook call. *)
Lemma fire_requested (e : env) (w : world) (r : nat) (p : plugin) (cb : callback) :
  w_heap w !! r = Some p -> status p = "requested" -> cb_ref cb = r ->
  exists p' tr0 err,
    w_heap (snd (fire e cb w)) = <[r := p']> (w_heap w) /\
    name p' = name p /\ status p' = cb_status cb /\ p_status (performance p') = cb_status cb /\
    w_metrics (snd (fire e cb w)) = <[name p := performance p']> (w_metrics w) /\
    w_queue (snd (fire e cb w)) = w_queue w /\
    w_plugins (snd (fire e cb w)) = w_plugins w /\
    match cb_hook cb (hooks p) with
    | HReturns =>
      fst (fire e cb w) = Ok tt /\
      w_trace (snd (fire e cb w)) =
        app (w_trace w) (app tr0 [EPublish (topic e (name p) "complete") None;
                                  EResolve (cb_handle cb) (cb_status cb) (name p) None err (performance p')]) /\
      resolutions tr0 = []
    | HThrows ex =>
      fst (fire e cb w) = Thrown ex /\
      w_trace (snd (fire e cb w)) = app (w_trace w) [EHook (name p) (cb_hook_name cb)]
    end.
Proof.
  intros Hp Hs Hr.
  destruct (cb_hook cb (hooks p)) as [|ex] eqn:Hk;
    destruct cb as [r' h | r' h | r' h err]; simpl in Hr, Hk |- *; subst r';
    unfold on_timeout, on_load, on_error, with_plugin; rewrite Hp, Hs; simpl; run_W; rewrite Hk; run_W.
  all: first
    [ eexists; eexists [EHook (name p) _; EPublish _ None]; eexists;
      repeat split; try reflexivity; exact (snoc4 _ _ _ _ _)
    | eexists; exists [], None; repeat split; reflexivity ].
Qed.

Lemma fire_all_not_requested (e : env) (w : world) (r : nat) (p : plugin) (cbs : list callback) :
  w_heap w !! r = Some p -> status p <> "requested" ->
  Forall (fun cb => cb_ref cb = r) cbs -> fire_all e cbs w = (Ok tt, w).
Proof.
  intros Hp Hs Hcbs. induction Hcbs as [|cb cbs Hcb _ IH]; [reflexivity|].
  simpl. unfold mbind, M_bind, task. rewrite (fire_not_requested e w r p cb Hp Hs Hcb). exact IH.
Qed.

(** From [requested], whatever sequence of timeout-alarm firings and
    script callbacks arrives, each runs as a task of its own and the
    sequence completes; the first callback settles the descriptor and
    the later ones do nothing.  The load's promise is resolved once, by
    the first callback with its status, when that callback's hook
    ([timeoutFn], [onloadFn] or [onerrorFn]) returns; when that hook
    throws, the promise is never resolved.  (A callback closing over an
    earlier promise can use up the descriptor's single resolution.) *)
Theorem load_resolves_exactly_once (e : env) (w : world) (r : nat) (p : plugin)
    (cb : callback) (cbs : list callback) :
  w_heap w !! r = Some p -> status p = "requested" ->
  Forall (fun c => cb_ref c = r) (cb :: cbs) ->
  fst (fire_all e (cb :: cbs) w) = Ok tt /\
  exists tr, w_trace (snd (fire_all e (cb :: cbs) w)) = app (w_trace w) tr /\
             resolutions tr = match cb_hook cb (hooks p) with
                              | HReturns => [(cb_handle cb, cb_status cb)]
                              | HThrows _ => []
                              end.
Proof.
  intros Hp Hs Hall. pose proof (Forall_inv Hall) as Hcb. pose proof (Forall_inv_tail Hall) as Hcbs.
  destruct (fire_requested e w r p cb Hp Hs Hcb)
    as (p' & tr0 & err & Hh & Hn & Hst & _ & _ & _ & _ & Hk).
  assert (E : fire_all e (cb :: cbs) w = fire_all e cbs (snd (fire e cb w))) by reflexivity.
  assert (Hp' : w_heap (snd (fire e cb w)) !! r = Some p') by (rewrite Hh; apply lookup_insert_eq).
  assert (Hs' : status p' <> "requested") by (rewrite Hst; destruct cb; discriminate).
  rewrite E, (fire_all_not_requested e _ r p' cbs Hp' Hs' Hcbs). split; [reflexivity|].
  destruct (cb_hook cb (hooks p)); [destruct Hk as (_ & Ht & Hr) | destruct Hk as (_ & Ht)].
  - eexists. split; [exact Ht|]. rewrite resolutions_app, Hr. reflexivity.
  - exists [EHook (name p) (cb_hook_name cb)]. split; [exact Ht | reflexivity].
Qed.


Lemma qk_ret {A} (x : A) : queue_kept (mret x : M A).
Proof. intros w. reflexivity. Qed.

Lemma qk_bind {A B} (c : M A) (k : A -> M B) :
  queue_kept c -> (forall x, queue_kept (k x)) -> queue_kept (mbind k c).
Proof.
  intros Hc Hk w. unfold mbind, M_bind. specialize (Hc w).
  destruct (c w) as [[x|err] w'] eqn:E; simpl in *; [rewrite Hk; exact Hc | exact Hc].
Qed.

Lemma qk_throw {A} (err : string) : queue_kept (throw err : M A).
Proof. intros w. reflexivity. Qed.

Lemma qk_if {A} (b : bool) (c1 c2 : M A) :
  queue_kept c1 -> queue_kept c2 -> queue_kept (if b then c1 else c2).
Proof. destruct b; auto. Qed.

Lemma qk_with_plugin (r : nat) (k : plugin -> M unit) :
  (forall p, queue_kept (k p)) -> queue_kept (with_plugin r k).
Proof. intros Hk w. unfold with_plugin. destruct (w_heap w !! r); [apply Hk|reflexivity]. Qed.

Lemma qk_write (r : nat) (p : plugin) : queue_kept (write_plugin r p).
Proof. intros w. reflexivity. Qed.
Lemma qk_emit (ef : effect) : queue_kept (emit ef).
Proof. intros w. reflexivity. Qed.
Lemma qk_plugins (f : gmap string nat -> gmap string nat) : queue_kept (modify (upd_plugins f)).
Proof. intros w. reflexivity. Qed.
Lemma qk_updateMetrics (p : plugin) : queue_kept (updateMetrics p).
Proof. intros w. reflexivity. Qed.
Lemma qk_publish (e : env) (n ev : string) (rs : option string) : queue_kept (publishEvent e n ev rs).
Proof. intros w. reflexivity. Qed.
Lemma qk_call_hook (p : plugin) (hk : string) (sel : hookset -> hook) : queue_kept (call_hook p hk sel).
Proof.
  unfold call_hook. apply qk_bind; [apply qk_emit|]. intros _.
  destruct (sel (hooks p)); [apply qk_ret | apply qk_throw].
Qed.
Lemma qk_executor (h : nat) (body : M unit) : queue_kept body -> queue_kept (executor h body).
Proof.
  intros Hb w. unfold executor, catch. specialize (Hb w).
  destruct (body w) as [[x|err] w']; exact Hb.
Qed.
Lemma qk_applyExperiments (r : nat) : queue_kept (applyExperiments r).
Proof.
  unfold applyExperiments. apply qk_with_plugin. intros p w. destruct (w_experiments w) as [m|].
  - destruct (Experiments.apply m (Some (name p)) p). reflexivity.
  - reflexivity.
Qed.
Lemma qk_load_select (e : env) (c : config) : queue_kept (load_select e c).
Proof. intros w. unfold load_select. run_W. destruct (w_plugins w !! c_name c); reflexivity. Qed.

Create HintDb qkept.
#[local] Hint Resolve qk_ret qk_throw qk_write qk_emit qk_plugins qk_updateMetrics qk_publish
  qk_call_hook qk_applyExperiments : qkept.

Ltac qk_solve :=
  repeat (intros; first [ apply qk_call_hook | apply qk_bind | apply qk_if | apply qk_with_plugin
                        | eauto with qkept ]).

Lemma qk_handleInactive (e : env) (r h : nat) : queue_kept (handleInactive e r h).
Proof. unfold handleInactive. qk_solve. Qed.
Lemma qk_handleIgnore (e : env) (r : nat) (rs : string) (h : nat) : queue_kept (handleIgnore e r rs h).
Proof. unfold handleIgnore. qk_solve. Qed.
Lemma qk_executeLoad (e : env) (r h : nat) : queue_kept (executeLoad e r h).
Proof. unfold executeLoad. qk_solve; apply qk_handleIgnore. Qed.
Lemma qk_load_after_consent (e : env) (r h : nat) : queue_kept (load_after_consent e r h).
Proof.
  unfold load_after_consent.
  repeat (intros; first [ apply qk_applyExperiments | apply qk_handleIgnore | apply qk_executeLoad
                        | apply qk_bind | apply qk_if | apply qk_with_plugin | eauto with qkept ]).
Qed.

(** With the default consent check ([() => true]) the consent gate
    always passes, so [load] never puts anything on the consent queue. *)
Theorem default_consent_never_queues (gen : list (string * dimension)) (gdc : dimconfig)
    (o : loader_options) (ib : bool) (pe pd : option string) (hst : string) (t : Z)
    (c : config) (h : nat) (w : world) :
  lo_consentCheck o = None ->
  let e := make_env gen gdc o ib pe pd hst t in
  (forall l, checkConsent e l = true) /\
  w_queue (snd (load e c h w)) = w_queue w.
Proof.
  intros Hn e.
  assert (Hcc : forall l, consentCheck e l = true).
  { intros l. unfold e, make_env. destruct (getUrlOverrides ib pe pd). cbn [consentCheck].
    rewrite Hn. reflexivity. }
  assert (Hc : forall l, checkConsent e l = true).
  { intros l. unfold checkConsent. destruct l; [reflexivity|].
    destruct (arr_includes _ "all"); [reflexivity | apply Hcc]. }
  split; [exact Hc|].
  enough (Hq : queue_kept (load e c h)) by apply Hq.
  unfold load. apply qk_executor. apply qk_bind; [apply qk_load_select|]. intros r.
  unfold load_gates. apply qk_with_plugin. intros p. apply qk_bind; [apply qk_plugins|]. intros _.
  destruct (checkUrlOverride e (name p)) as [ov en].
  apply qk_bind; [destruct ov, en; qk_solve|]. intros _.
  apply qk_with_plugin. intros p'. rewrite Hc. cbn [negb].
  destruct (active p'); cbn [negb]; [apply qk_load_after_consent | apply qk_handleInactive].
Qed.

Lemma executor_ok (h : nat) (c : M unit) (w : world) :
  fst (c w) = Ok tt -> executor h c w = c w.
Proof.
  unfold executor, catch. destruct (c w) as [[[]|err] w']; simpl; intros H; [reflexivity | discriminate].
Qed.



Lemma checkUrlOverride_not_false_false (e : env) (n : string) : checkUrlOverride e n <> (false, false).
Proof.
  unfold checkUrlOverride.
  destruct (arr_includes (url_disable e) "all"), (arr_includes (url_enable e) n),
           (arr_includes (url_disable e) n); discriminate.
Qed.

Lemma handleInactive_result (e : env) (w : world) (r h : nat) (p : plugin) :
  w_heap w !! r = Some p ->
  fst (handleInactive e r h w) = Ok tt /\
  exists p' tr, w_heap (snd (handleInactive e r h w)) !! r = Some p' /\
    status p' = "inactive" /\ active p' = active p /\ name p' = name p /\
    w_queue (snd (handleInactive e r h w)) = w_queue w /\
    w_trace (snd (handleInactive e r h w)) = app (w_trace w) tr /\
    last tr = Some (EResolve h "inactive" (name p) None None (performance p')) /\ no_attach tr.
Proof.
  intros Hp. unfold handleInactive, with_plugin. rewrite Hp. run_W.
  split; [reflexivity|].
  do 2 eexists. split; [reflexivity|]. repeat split; try reflexivity;
    try (rewrite <- !app_assoc; reflexivity); unfold no_attach; cbn; repeat constructor.
Qed.

Lemma load_gates_inactive_eq (e : env) (w : world) (r h : nat) (p : plugin) :
  w_heap w !! r = Some p ->
  (checkUrlOverride e (name p) = (true, true) -> active p = false ->
   load_gates e r h w =
   handleInactive e r h
     (mk_world (<[r := set_gates empty_tobj empty_tobj ["all"] ["all"] p]> (w_heap w)) (w_next w)
               (<[name p := r]> (w_plugins w)) (w_metrics w) (w_queue w) (w_experiments w)
               (app (w_trace w) [EPublish (topic e (name p) "override.enabled") None]))) /\
  (checkUrlOverride e (name p) = (true, false) ->
   load_gates e r h w =
   handleInactive e r h
     (mk_world (<[r := set_active false p]> (w_heap w)) (w_next w)
               (<[name p := r]> (w_plugins w)) (w_metrics w) (w_queue w) (w_experiments w)
               (app (w_trace w) [EPublish (topic e (name p) "override.disabled") None]))) /\
  (checkUrlOverride e (name p) = (false, true) -> active p = false ->
   load_gates e r h w = handleInactive e r h (upd_plugins (insert (name p) r) w)).
Proof.
  intros Hp. split; [|split].
  - intros Hov Ha. unfold load_gates. unfold with_plugin at 1. rewrite Hp, Hov.
    run_W. rewrite Ha. reflexivity.
  - intros Hov. unfold load_gates. unfold with_plugin at 1. rewrite Hp, Hov.
    run_W. reflexivity.
  - intros Hov Ha. unfold load_gates. unfold with_plugin at 1. rewrite Hp, Hov.
    run_W. rewrite Hp, Ha. reflexivity.
Qed.

Lemma load_gates_inactive (e : env) (w : world) (r h : nat) (p : plugin) :
  w_heap w !! r = Some p ->
  snd (checkUrlOverride e (name p)) = false \/ active p = false ->
  fst (load_gates e r h w) = Ok tt /\
  exists p' tr, w_heap (snd (load_gates e r h w)) !! r = Some p' /\
    status p' = "inactive" /\ active p' = false /\
    w_queue (snd (load_gates e r h w)) = w_queue w /\
    w_trace (snd (load_gates e r h w)) = app (w_trace w) tr /\
    last tr = Some (EResolve h "inactive" (name p) None None (performance p')) /\ no_attach tr.
Proof.
  intros Hp Hcase.
  destruct (load_gates_inactive_eq e w r h p Hp) as (E1 & E2 & E3).
  pose proof (checkUrlOverride_not_false_false e (name p)) as Hnff.
  destruct (checkUrlOverride e (name p)) as [[|] [|]] eqn:Hov; cbn [snd] in Hcase.
  - destruct Hcase as [Hc|Ha]; [discriminate|]. rewrite (E1 eq_refl Ha).
    match goal with |- context [handleInactive e r h ?W] =>
      destruct (handleInactive_result e W r h (set_gates empty_tobj empty_tobj ["all"] ["all"] p))
        as (Hf & p' & tr & H1 & H2 & H3 & H4 & H5 & H6 & H7 & H8); [cbn; apply lookup_insert_eq|] end.
    split; [exact Hf|].
    exists p', (EPublish (topic e (name p) "override.enabled") None :: tr).
    rewrite H1, H5, H6. cbn in *. repeat split; try assumption; try congruence.
    + rewrite <- app_assoc. reflexivity.
    + destruct tr as [|t tr]; [discriminate H7|]. exact H7.
    + constructor; [exact I | exact H8].
  - rewrite (E2 eq_refl).
    match goal with |- context [handleInactive e r h ?W] =>
      destruct (handleInactive_result e W r h (set_active false p))
        as (Hf & p' & tr & H1 & H2 & H3 & H4 & H5 & H6 & H7 & H8); [cbn; apply lookup_insert_eq|] end.
    split; [exact Hf|].
    exists p', (EPublish (topic e (name p) "override.disabled") None :: tr).
    rewrite H1, H5, H6. cbn in *. repeat split; try assumption; try congruence.
    + rewrite <- app_assoc. reflexivity.
    + destruct tr as [|t tr]; [discriminate H7|]. exact H7.
    + constructor; [exact I | exact H8].
  - destruct Hcase as [Hc|Ha]; [discriminate|]. rewrite (E3 eq_refl Ha).
    destruct (handleInactive_result e (upd_plugins (insert (name p) r) w) r h p)
      as (Hf & p' & tr & H1 & H2 & H3 & H4 & H5 & H6 & H7 & H8); [exact Hp|].
    split; [exact Hf|].
    exists p', tr. rewrite H1, H5, H6. cbn in *. repeat split; try assumption; try congruence.
  - congruence.
Qed.


Lemma handleIgnore_inactive (e : env) (w : world) (r : nat) (rs : string) (h : nat) (p : plugin) :
  w_heap w !! r = Some p ->
  exists p1, w_heap (snd (handleIgnore e r rs h w)) !! r = Some p1 /\ active p1 = false /\
             name p1 = name p /\ w_plugins (snd (handleIgnore e r rs h w)) = w_plugins w.
Proof.
  intros Hp. unfold handleIgnore, with_plugin. rewrite Hp. run_W.
  destruct (ignoreFn (hooks p)); run_W; eexists; repeat split; reflexivity.
Qed.

(** An ignored plugin stays off: after [handleIgnore] (targeting, domain
    or missing URL), a later [load] of the same name resolves "inactive"
    without attaching a script, whatever the URL overrides say. *)
Theorem ignore_is_sticky (e : env) (w : world) (r : nat) (p : plugin) (c : config)
    (rs : string) (h1 h2 : nat) :
  w_heap w !! r = Some p -> w_plugins w !! c_name c = Some r ->
  let w1 := snd (handleIgnore e r rs h1 w) in
  exists p' tr, w_heap (snd (load e c h2 w1)) !! r = Some p' /\
    status p' = "inactive" /\
    w_trace (snd (load e c h2 w1)) = app (w_trace w1) tr /\
    last tr = Some (EResolve h2 "inactive" (name p) None None (performance p')) /\ no_attach tr.
Proof.
  intros Hp Hf w1.
  destruct (handleIgnore_inactive e w r rs h1 p Hp) as (p1 & H1 & Ha & Hn & Hpl).
  fold w1 in H1, Hpl.
  assert (Hf1 : w_plugins w1 !! c_name c = Some r) by (rewrite Hpl; exact Hf).
  destruct (load_gates_inactive e w1 r h2 p1 H1 (or_intror Ha))
    as (Hok & p' & tr & G1 & G2 & G3 & G4 & G5 & G6 & G7).
  rewrite (load_selected e c h2 w1 w1 r (load_select_existing e c w1 r Hf1)),
          (executor_ok h2 (load_gates e r h2) w1 Hok).
  exists p', tr. rewrite <- Hn. repeat split; assumption.
Qed.















(** [register(config)] stores a fresh normalized descriptor under the
    config's name, visible through [getPlugin]; a later [load] of any
    config with that name picks the stored descriptor and ignores the
    new config's fields. *)
Theorem register_then_load (e : env) (c c' : config) (w : world) :
  c_name c' = c_name c ->
  match Loader.register e c w with
  | (Ok r, w1) =>
    getPlugin (c_name c) w1 = Some (normalizePluginConfig e c) /\
    load_select e c' w1 = (Ok r, w1) /\ w_heap w1 !! r = Some (normalizePluginConfig e c)
  | (Thrown _, _) => False
  end.
Proof.
  intros Hn. unfold Loader.register, mbind, M_bind, alloc, modify, mret, M_ret, upd_plugins. cbn.
  split; [|split].
  - unfold getPlugin. cbn. rewrite lookup_insert_eq. cbn. apply lookup_insert_eq.
  - apply load_select_existing. cbn. rewrite Hn. apply lookup_insert_eq.
  - apply lookup_insert_eq.
Qed.

End LoaderProps.

(* ------------------------------------------------------------------ *)
(** ** Instances of the properties above on sample inputs *)

Section Instances.
Import Samples.
Import Experiments.
Import Loader.
Import Views.

Lemma matching_ignores_case_witness :
  map toLowerCase ["sport"] = map toLowerCase ["SPORT"] /\
  matchesRule (JStr (toLowerCase "Sport")) ["sport"] "exact" = matchesRule (JStr "Sport") ["SPORT"] "exact".
Proof.
  split; [reflexivity|].
  refine (proj1 (matching_ignores_case "Sport" ["sport"] ["SPORT"] "exact" _ _ _));
    [reflexivity | simpl; intuition discriminate | simpl; intuition discriminate].
Defined.

Lemma matchesRule_isExcluded_agree_witness :
  matchesRule (JStr "sport") ["news"] "exact" = isExcluded (JStr "sport") ["news"] "exact".
Proof.
  refine (proj1 (matchesRule_isExcluded_agree (JStr "sport") ["news"] "exact" _ _));
    [discriminate | simpl; intuition discriminate].
Defined.

Lemma match_types_nested_witness :
  matchesRule (JStr "sport") ["sp"] "exactly" = matchesRule (JStr "sport") ["sp"] "exact" /\
  matchesRule (JStr "Sport") ["sport"] "startsWith" = true /\
  isExcluded (JStr "sport") ["port"] "includes" = true.
Proof.
  destruct (match_types_nested (JStr "Sport") ["sport"] "exact") as (H1 & _);
    [discriminate | discriminate |].
  destruct (match_types_nested (JStr "sport") ["port"] "exact") as (_ & _ & _ & H4 & _);
    [discriminate | discriminate |].
  split; [|split].
  - refine (proj1 (proj2 (proj2 (proj2 (proj2
              (match_types_nested (JStr "sport") ["sp"] "exactly" _ _)))))); discriminate.
  - apply H1. reflexivity.
  - reflexivity.
Defined.


Lemma matchesDomain_listed_host_witness :
  matchesDomain ["example.com"; "other.com"] (Some "") "example.com" = true <->
  In "example.com" ["example.com"; "other.com"].
Proof.
  refine (proj2 (matchesDomain_listed_host ["example.com"; "other.com"] (Some "") "example.com") _ _);
    [discriminate | simpl; intuition discriminate].
Defined.



Lemma apply_named_skips_others_witness :
  Experiments.apply (manager_with true [("exp1", exp_on_a "exp1" narrow_to_news)]) (Some "b") plugin_a =
  (manager_with true [("exp1", exp_on_a "exp1" narrow_to_news)], plugin_a).
Proof.
  refine (proj1 (apply_named_skips_others (manager_with true [("exp1", exp_on_a "exp1" narrow_to_news)])
                                          "b" plugin_a _ _));
    [discriminate | repeat constructor; simpl; discriminate].
Defined.

Lemma create_manager_witness :
  (0 <= m_testgroup (create (mk_manager_options None None None None) (1 # 2)) <= 99)%Z /\
  m_testgroup (create (mk_manager_options None (Some 7%Z) None None) (1 # 2)) = 7%Z.
Proof.
  split.
  - refine (proj1 (create_manager (mk_manager_options None None None None) (1 # 2) _ _) eq_refl);
      unfold Qle, Qlt; simpl; lia.
  - refine (proj1 (proj2 (create_manager (mk_manager_options None (Some 7%Z) None None) (1 # 2) _ _))
                  7%Z eq_refl);
      unfold Qle, Qlt; simpl; lia.
Defined.

Lemma getUrlOverrides_roundtrip_witness :
  parse_list (Some (String.concat "," ["a"; "bb"])) = ["a"; "bb"].
Proof.
  refine (proj1 (getUrlOverrides_roundtrip ["a"; "bb"] _)).
  repeat constructor; try discriminate; intros c Hc; simpl in Hc;
    intuition (subst; discriminate).
Defined.

Lemma checkUrlOverride_precedence_witness :
  checkUrlOverride (env_with true ["a"] ["all"]) "a" = (true, true) /\
  checkUrlOverride (env_with true [] ["all"]) "a" = (true, false) /\
  checkUrlOverride (env_with true [] []) "a" = (false, true).
Proof.
  split; [|split].
  - refine (proj1 (checkUrlOverride_precedence (env_with true ["a"] ["all"]) "a") _).
    left. reflexivity.
  - refine (proj1 (proj2 (checkUrlOverride_precedence (env_with true [] ["all"]) "a")) _ _).
    + intros [].
    + left. left. reflexivity.
  - refine (proj2 (proj2 (checkUrlOverride_precedence (env_with true [] []) "a")) _ _ _);
      intros [].
Defined.

Lemma make_env_merges_witness :
  assoc "section" (dimensions (make_env [("section", DValue (JStr "sport")); ("page", DValue (JStr "home"))] []
                                 (mk_loader_options (Some [("section", DValue (JStr "news"))]) None None None)
                                 true None None "example.com" 0)) =
  Some (DValue (JStr "news")).
Proof.
  refine (proj1 (make_env_merges [("section", DValue (JStr "sport")); ("page", DValue (JStr "home"))] []
                   (mk_loader_options (Some [("section", DValue (JStr "news"))]) None None None)
                   true None None "example.com" 0 "section" _ _ _ _)).
  all: simpl; repeat constructor; simpl; intuition discriminate.
Defined.

Lemma load_resolves_exactly_once_witness :
  exists tr, w_trace (snd (fire_all (env_with true [] []) [CbLoad 0 7; CbTimeout 0 7] (world_a "requested" []))) =
             app [] tr /\ resolutions tr = [(7, "loaded")].
Proof.
  refine (proj2 (load_resolves_exactly_once (env_with true [] []) (world_a "requested" []) 0
                   (set_status "requested" plugin_a) (CbLoad 0 7) [CbTimeout 0 7] _ _ _));
    [reflexivity | reflexivity | repeat constructor].
Defined.


Lemma default_consent_never_queues_witness :
  w_queue (snd (load (make_env [] [] (mk_loader_options None None None None) true None None "example.com" 0)
                     config_a 7 empty_world)) = [].
Proof.
  exact (proj2 (default_consent_never_queues [] [] (mk_loader_options None None None None) true None None
                  "example.com" 0 config_a 7 empty_world eq_refl)).
Defined.



Lemma ignore_is_sticky_witness :
  exists p', w_heap (snd (load (env_with true ["a"] []) config_a 8
                              (snd (handleIgnore (env_with true ["a"] []) 0 "Domain mismatch" 7
                                                 (world_a "init" []))))) !! 0 = Some p' /\
             status p' = "inactive".
Proof.
  destruct (ignore_is_sticky (env_with true ["a"] []) (world_a "init" []) 0 (set_status "init" plugin_a)
              config_a "Domain mismatch" 7 8) as (p' & tr & H1 & H2 & _);
    [reflexivity | reflexivity |].
  exists p'. split; assumption.
Defined.



Lemma register_then_load_witness :
  match Loader.register (env_with true [] []) config_a_blocked empty_world with
  | (Ok r, w1) => load_select (env_with true [] []) config_a w1 = (Ok r, w1)
  | (Thrown _, _) => False
  end.
Proof.
  pose proof (register_then_load (env_with true [] []) config_a_blocked config_a empty_world eq_refl) as H.
  destruct (Loader.register (env_with true [] []) config_a_blocked empty_world) as [[r|err] w1];
    [exact (proj1 (proj2 H)) | exact H].
Defined.

End Instances.
